(** * CircuitGen: the circuit catalog, its evaluator and the pin resolver

    A shallow embedding of [src/App.js]: the catalog [RECIPES] with the
    [logic] function of every entry, the evaluator (the callback of the
    [outputs] memo), the coordinate resolver [getCoords], the wire
    component [Wire] and the loop that renders a circuit's wires.

    JavaScript values are modelled as far as the catalog uses them:
    [undefined], booleans and integer-valued numbers (with [NaN]).
    Arithmetic on numbers is exact; this agrees with double arithmetic as
    long as the integers stay below 2^53, which is the case for every
    vector the switch bank can produce.  Arrays live in a store and are
    passed by reference, so that sharing and mutation are visible. *)

From stdpp Require Import base list strings pretty.
From Stdlib Require Import Ascii ZArith QArith Lia Lqa.

Open Scope Z_scope.

(** ** Values and operators *)

Module JS.

Inductive jsval : Type :=
  | VUndef
  | VBool (b : bool)
  | VNum (z : Z)
  | VNaN.

(** [ToNumber]; [None] stands for [NaN]. *)
Definition ToNumber (v : jsval) : option Z :=
  match v with
  | VUndef => None
  | VBool b => Some (if b then 1 else 0)
  | VNum z => Some z
  | VNaN => None
  end.

(** Reduction modulo 2^32 into the signed range. *)
Definition wrap32 (z : Z) : Z := (z + 2 ^ 31) mod 2 ^ 32 - 2 ^ 31.

Definition ToInt32 (v : jsval) : Z :=
  match ToNumber v with
  | Some z => wrap32 z
  | None => 0
  end.

Definition ToUint32 (v : jsval) : Z :=
  match ToNumber v with
  | Some z => z mod 2 ^ 32
  | None => 0
  end.

Definition ToBoolean (v : jsval) : bool :=
  match v with
  | VUndef => false
  | VBool b => b
  | VNum z => negb (z =? 0)
  | VNaN => false
  end.

(** [a & b], [a | b], [a ^ b], [a >> b] *)
Definition band (a b : jsval) : jsval := VNum (Z.land (ToInt32 a) (ToInt32 b)).
Definition bor (a b : jsval) : jsval := VNum (Z.lor (ToInt32 a) (ToInt32 b)).
Definition bxor (a b : jsval) : jsval := VNum (Z.lxor (ToInt32 a) (ToInt32 b)).
Definition shr (a b : jsval) : jsval :=
  VNum (Z.shiftr (ToInt32 a) (ToUint32 b mod 32)).

(** [!a] *)
Definition not (a : jsval) : jsval := VBool (negb (ToBoolean a)).

(** [a * b] and [a + b] on operands that are not strings *)
Definition mul (a b : jsval) : jsval :=
  match ToNumber a, ToNumber b with
  | Some x, Some y => VNum (x * y)
  | _, _ => VNaN
  end.

Definition add (a b : jsval) : jsval :=
  match ToNumber a, ToNumber b with
  | Some x, Some y => VNum (x + y)
  | _, _ => VNaN
  end.

(** [a === b]: same type and same value; [NaN] differs from itself. *)
Definition strict_eq (a b : jsval) : jsval :=
  VBool
    match a, b with
    | VUndef, VUndef => true
    | VBool x, VBool y => Bool.eqb x y
    | VNum x, VNum y => x =? y
    | _, _ => false
    end.

(** [a < b] and [a > b]; a comparison with [NaN] is false. *)
Definition lt (a b : jsval) : jsval :=
  VBool
    match ToNumber a, ToNumber b with
    | Some x, Some y => x <? y
    | _, _ => false
    end.

Definition gt (a b : jsval) : jsval := lt b a.

End JS.

Import JS.

(** ** The store and the evaluation monad

    An array is a list of slots; an empty slot is a hole, as left by a
    write beyond the end.  The store maps references to arrays; a
    reference that is not allocated stands for a value that is not an
    object, on which an element read throws. *)

Abbreviation jsarray := (list (option jsval)).
Abbreviation ref := nat (only parsing).
Abbreviation heap := (list (list (option jsval))).

Inductive exn : Type :=
  | TypeError
  | Thrown (v : jsval).

Inductive completion (A : Type) : Type :=
  | Normal (a : A)
  | Throw (e : exn).
Arguments Normal {A} a.
Arguments Throw {A} e.

Definition M (A : Type) : Type := heap -> completion A * heap.

Definition ret {A} (a : A) : M A := fun h => (Normal a, h).

Definition bind {A B} (m : M A) (k : A -> M B) : M B :=
  fun h =>
    match m h with
    | (Normal a, h') => k a h'
    | (Throw e, h') => (Throw e, h')
    end.

Definition throw {A} (e : exn) : M A := fun h => (Throw e, h).

(** [try { m } catch { handler }] *)
Definition try_catch {A} (m handler : M A) : M A :=
  fun h =>
    match m h with
    | (Normal a, h') => (Normal a, h')
    | (Throw _, h') => handler h'
    end.

Declare Scope js_scope.
Delimit Scope js_scope with js.
Bind Scope js_scope with M.

Notation "x <- m ;; k" := (bind m (fun x => k))
  (at level 80, m at next level, right associativity) : js_scope.

Open Scope js_scope.

(** A dense array, as an array literal builds it. *)
Definition dense (l : list jsval) : jsarray := Some <$> l.

(** Reading element [k]: a hole or an index past the end reads
    [undefined]. *)
Definition read (a : jsarray) (k : nat) : jsval :=
  match a !! k with
  | Some (Some v) => v
  | _ => VUndef
  end.

(** [a[k]] for a literal index [k]. *)
Definition index (a : ref) (k : nat) : M jsval :=
  fun h =>
    match h !! a with
    | Some arr => (Normal (read arr k), h)
    | None => (Throw TypeError, h)
    end.

(** Allocation of a new array. *)
Definition alloc (arr : jsarray) : M ref :=
  fun h => (Normal (length h), h ++ [arr]).

(** Left-to-right evaluation of a list of expressions. *)
Fixpoint eval_list (es : list (M jsval)) : M (list jsval) :=
  match es with
  | [] => ret []
  | e :: es' => v <- e ;; vs <- eval_list es' ;; ret (v :: vs)
  end.

(** The array literal [[e1, ..., en]]. *)
Definition array_lit (es : list (M jsval)) : M ref :=
  vs <- eval_list es ;; alloc (dense vs).

(** The key of [a[k] = v] is an array index when [k] is an integer in
    [0, 2^32 - 2]; any other key names an ordinary property, which no
    element read, [length] or [map] observes. *)
Definition array_index (k : jsval) : option nat :=
  match k with
  | VNum z => if (0 <=? z) && (z <? 2 ^ 32 - 1) then Some (Z.to_nat z) else None
  | _ => None
  end.

(** Writing element [n]: in range the slot is replaced, past the end the
    array grows and the slots in between are holes. *)
Definition store_at (arr : jsarray) (n : nat) (v : jsval) : jsarray :=
  if (n <? length arr)%nat then <[n := Some v]> arr
  else arr ++ replicate (n - length arr) None ++ [Some v].

(** [a[k] = v] *)
Definition array_set (a : ref) (k : jsval) (v : jsval) : M unit :=
  fun h =>
    match h !! a with
    | Some arr =>
        match array_index k with
        | Some n => (Normal tt, <[a := store_at arr n v]> h)
        | None => (Normal tt, h)
        end
    | None => (Throw TypeError, h)
    end.

(** [a.map(f)] for a callback that uses its first argument only: a new
    array of the same length; holes are skipped and stay holes. *)
Definition array_map (a : ref) (f : jsval -> jsval) : M ref :=
  fun h =>
    match h !! a with
    | Some arr => alloc (fmap f <$> arr) h
    | None => (Throw TypeError, h)
    end.

(** *** Expressions *)

Definition lit (z : Z) : M jsval := ret (VNum z).
Definition val (v : jsval) : M jsval := ret v.

Definition lift2 (op : jsval -> jsval -> jsval) (e1 e2 : M jsval) : M jsval :=
  a <- e1 ;; b <- e2 ;; ret (op a b).

Definition lift1 (op : jsval -> jsval) (e : M jsval) : M jsval :=
  a <- e ;; ret (op a).

(** [e1 && e2]: the second operand is evaluated only when the first is
    truthy. *)
Definition land (e1 e2 : M jsval) : M jsval :=
  a <- e1 ;; if ToBoolean a then e2 else ret a.

(** [if (c) s1 else s2] *)
Definition ifte {A} (c : M jsval) (s1 s2 : M A) : M A :=
  b <- c ;; if ToBoolean b then s1 else s2.

Notation "a .[ k ]" := (index a k)
  (at level 1, left associativity, format "a .[ k ]") : js_scope.
Notation "# z" := (lit z) (at level 1, format "# z") : js_scope.
Notation "a .* b" := (lift2 JS.mul a b) (at level 40, left associativity) : js_scope.
Notation "a .+ b" := (lift2 JS.add a b) (at level 50, left associativity) : js_scope.
Notation "a .>> b" := (lift2 JS.shr a b) (at level 52, left associativity) : js_scope.
Notation "a .< b" := (lift2 JS.lt a b) (at level 57, no associativity) : js_scope.
Notation "a .> b" := (lift2 JS.gt a b) (at level 57, no associativity) : js_scope.
Notation "a .=== b" := (lift2 JS.strict_eq a b) (at level 58, no associativity) : js_scope.
Notation "a .& b" := (lift2 JS.band a b) (at level 61, left associativity) : js_scope.
Notation "a .^ b" := (lift2 JS.bxor a b) (at level 62, left associativity) : js_scope.
Notation "a .| b" := (lift2 JS.bor a b) (at level 63, left associativity) : js_scope.
Notation "a .&& b" := (land a b) (at level 64, left associativity) : js_scope.
Notation ".! a" := (lift1 JS.not a) (at level 35, right associativity) : js_scope.
Notation "'If' c 'Then' s1 'Else' s2" := (ifte c s1 s2)
  (at level 80, c at next level, s1 at next level, right associativity) : js_scope.

(** ** Circuit descriptions *)

Open Scope string_scope.

(** A wire endpoint is a token (['VCC'], ['GND'], ['SW_n'], ['LED_n']) or
    an object [{c, p}].  A field that is absent reads [undefined], which
    the resolver treats like [0]. *)
Inductive endpoint : Type :=
  | Tok (s : string)
  | P (c p : Z).

Coercion Tok : string >-> endpoint.

Record wire : Type := W {
  w_s : endpoint;
  w_e : endpoint;
  color : string
}.

Record chip : Type := Chip {
  chip_id : string;
  chip_type : string;
  chip_x : Q
}.

(** The free text fields [desc], [explanation] and [bom] are left out. *)
Record circuit : Type := Circuit {
  title : string;
  chips : list chip;
  inputs : list string;
  outputs : list string;
  wires : list wire;
  logic : option (ref -> M ref)
}.

(** The second argument of [powerWires]: a pin count or a part name. *)
Inductive pins_arg : Type :=
  | PinCount (n : Z)
  | PinName (s : string).

Definition powerWires (chipIdx : Z) (pins : pins_arg) : list wire :=
  match pins with
  | PinCount 14 =>
      [ W "VCC" (P chipIdx 14) "WIRE_RED";
        W "GND" (P chipIdx 7) "WIRE_BLACK" ]
  | PinCount 16 =>
      [ W "VCC" (P chipIdx 16) "WIRE_RED";
        W "GND" (P chipIdx 8) "WIRE_BLACK" ]
  | PinName "7476" =>
      [ W "VCC" (P chipIdx 5) "WIRE_RED";
        W "GND" (P chipIdx 13) "WIRE_BLACK" ]
  | _ => []
  end.

(** [powerWires(chipIdx)]: the default pin count is 14. *)
Definition powerWires14 (chipIdx : Z) : list wire := powerWires chipIdx (PinCount 14).

(** ** The catalog *)

Module Recipes.

Definition basic_gates : circuit := {|
  title := "Basic Logic Gates";
  chips := [Chip "u1" "7408" 20; Chip "u2" "7432" 35];
  inputs := ["A"; "B"]; outputs := ["AND"; "OR"];
  wires :=
    powerWires14 0 ++ powerWires14 1 ++
    [ W "SW_0" (P 0 1) "WIRE_BLUE"; W "SW_1" (P 0 2) "WIRE_ORANGE";
      W (P 0 3) "LED_0" "WIRE_GREEN";
      W "SW_0" (P 1 1) "WIRE_BLUE"; W "SW_1" (P 1 2) "WIRE_ORANGE";
      W (P 1 3) "LED_1" "WIRE_GREEN" ];
  logic := Some (fun i => array_lit [i.[0] .& i.[1]; i.[0] .| i.[1]])
|}.

Definition not_using_nand : circuit := {|
  title := "NOT using NAND";
  chips := [Chip "u1" "7400" 25];
  inputs := ["A"]; outputs := ["Y"];
  wires :=
    powerWires14 0 ++
    [ W "SW_0" (P 0 1) "WIRE_BLUE"; W "SW_0" (P 0 2) "WIRE_BLUE";
      W (P 0 3) "LED_0" "WIRE_GREEN" ];
  logic := Some (fun i => array_lit [.! i.[0]])
|}.

Definition and_using_nand : circuit := {|
  title := "AND using NAND";
  chips := [Chip "u1" "7400" 25];
  inputs := ["A"; "B"]; outputs := ["Y"];
  wires :=
    powerWires14 0 ++
    [ W "SW_0" (P 0 1) "WIRE_BLUE"; W "SW_1" (P 0 2) "WIRE_ORANGE";
      W (P 0 3) (P 0 4) "WIRE_PURPLE"; W (P 0 3) (P 0 5) "WIRE_PURPLE";
      W (P 0 6) "LED_0" "WIRE_GREEN" ];
  logic := Some (fun i => array_lit [.! .! (i.[0] .& i.[1])])
|}.

Definition or_using_nand : circuit := {|
  title := "OR using NAND";
  chips := [Chip "u1" "7400" 25];
  inputs := ["A"; "B"]; outputs := ["Y"];
  wires :=
    powerWires14 0 ++
    [ W "SW_0" (P 0 1) "WIRE_BLUE"; W "SW_0" (P 0 2) "WIRE_BLUE";
      W "SW_1" (P 0 4) "WIRE_ORANGE"; W "SW_1" (P 0 5) "WIRE_ORANGE";
      W (P 0 3) (P 0 9) "WIRE_PURPLE"; W (P 0 6) (P 0 10) "WIRE_PURPLE";
      W (P 0 8) "LED_0" "WIRE_GREEN" ];
  logic := Some (fun i => array_lit [i.[0] .| i.[1]])
|}.

Definition not_using_nor : circuit := {|
  title := "NOT using NOR";
  chips := [Chip "u1" "7402" 25];
  inputs := ["A"]; outputs := ["Y"];
  wires :=
    powerWires14 0 ++
    [ W "SW_0" (P 0 2) "WIRE_BLUE"; W "SW_0" (P 0 3) "WIRE_BLUE";
      W (P 0 1) "LED_0" "WIRE_GREEN" ];
  logic := Some (fun i => array_lit [.! i.[0]])
|}.

Definition or_using_nor : circuit := {|
  title := "OR using NOR";
  chips := [Chip "u1" "7402" 25];
  inputs := ["A"; "B"]; outputs := ["Y"];
  wires :=
    powerWires14 0 ++
    [ W "SW_0" (P 0 2) "WIRE_BLUE"; W "SW_1" (P 0 3) "WIRE_ORANGE";
      W (P 0 1) (P 0 5) "WIRE_PURPLE"; W (P 0 1) (P 0 6) "WIRE_PURPLE";
      W (P 0 4) "LED_0" "WIRE_GREEN" ];
  logic := Some (fun i => array_lit [i.[0] .| i.[1]])
|}.

Definition and_using_nor : circuit := {|
  title := "AND using NOR";
  chips := [Chip "u1" "7402" 25];
  inputs := ["A"; "B"]; outputs := ["Y"];
  wires :=
    powerWires14 0 ++
    [ W "SW_0" (P 0 2) "WIRE_BLUE"; W "SW_0" (P 0 3) "WIRE_BLUE";
      W "SW_1" (P 0 5) "WIRE_ORANGE"; W "SW_1" (P 0 6) "WIRE_ORANGE";
      W (P 0 1) (P 0 8) "WIRE_PURPLE"; W (P 0 4) (P 0 9) "WIRE_PURPLE";
      W (P 0 10) "LED_0" "WIRE_GREEN" ];
  logic := Some (fun i => array_lit [i.[0] .& i.[1]])
|}.

Definition half_adder : circuit := {|
  title := "Half Adder";
  chips := [Chip "u1" "7486" 20; Chip "u2" "7408" 35];
  inputs := ["A"; "B"]; outputs := ["Sum"; "Cout"];
  wires :=
    powerWires14 0 ++ powerWires14 1 ++
    [ W "SW_0" (P 0 1) "WIRE_BLUE"; W "SW_1" (P 0 2) "WIRE_ORANGE";
      W (P 0 3) "LED_0" "WIRE_GREEN";
      W "SW_0" (P 1 1) "WIRE_BLUE"; W "SW_1" (P 1 2) "WIRE_ORANGE";
      W (P 1 3) "LED_1" "WIRE_YELLOW" ];
  logic := Some (fun i => array_lit [i.[0] .^ i.[1]; i.[0] .& i.[1]])
|}.

Definition full_adder : circuit := {|
  title := "Full Adder";
  chips := [Chip "u1" "7486" 15; Chip "u2" "7408" 28; Chip "u3" "7432" 41];
  inputs := ["A"; "B"; "Cin"]; outputs := ["Sum"; "Cout"];
  wires :=
    powerWires14 0 ++ powerWires14 1 ++ powerWires14 2 ++
    [ W "SW_0" (P 0 1) "WIRE_BLUE"; W "SW_1" (P 0 2) "WIRE_ORANGE";
      W (P 0 3) (P 0 4) "WIRE_PURPLE"; W "SW_2" (P 0 5) "WIRE_YELLOW";
      W (P 0 6) "LED_0" "WIRE_GREEN";
      W "SW_0" (P 1 1) "WIRE_BLUE"; W "SW_1" (P 1 2) "WIRE_ORANGE";
      W (P 0 3) (P 1 4) "WIRE_PURPLE"; W "SW_2" (P 1 5) "WIRE_YELLOW";
      W (P 1 3) (P 2 1) "WIRE_PURPLE"; W (P 1 6) (P 2 2) "WIRE_PURPLE";
      W (P 2 3) "LED_1" "WIRE_RED" ];
  logic := Some (fun i =>
    array_lit [ i.[0] .^ i.[1] .^ i.[2];
                (i.[0] .& i.[1]) .| (i.[2] .& (i.[0] .^ i.[1])) ])
|}.

Definition half_subtractor : circuit := {|
  title := "Half Subtractor";
  chips := [Chip "u1" "7486" 15; Chip "u2" "7404" 28; Chip "u3" "7408" 41];
  inputs := ["A"; "B"]; outputs := ["Diff"; "Borr"];
  wires :=
    powerWires14 0 ++ powerWires14 1 ++ powerWires14 2 ++
    [ W "SW_0" (P 0 1) "WIRE_BLUE"; W "SW_1" (P 0 2) "WIRE_ORANGE";
      W (P 0 3) "LED_0" "WIRE_GREEN";
      W "SW_0" (P 1 1) "WIRE_BLUE"; W (P 1 2) (P 2 1) "WIRE_PURPLE";
      W "SW_1" (P 2 2) "WIRE_ORANGE"; W (P 2 3) "LED_1" "WIRE_RED" ];
  logic := Some (fun i => array_lit [i.[0] .^ i.[1]; (.! i.[0]) .& i.[1]])
|}.

Definition full_subtractor : circuit := {|
  title := "Full Subtractor";
  chips := [Chip "u1" "7486" 10; Chip "u2" "7408" 22; Chip "u3" "7404" 34;
            Chip "u4" "7432" 46];
  inputs := ["A"; "B"; "Bin"]; outputs := ["Diff"; "Bout"];
  wires :=
    powerWires14 0 ++ powerWires14 1 ++ powerWires14 2 ++ powerWires14 3 ++
    [ W "SW_0" (P 0 1) "WIRE_BLUE"; W "SW_1" (P 0 2) "WIRE_ORANGE";
      W (P 0 3) (P 0 4) "WIRE_PURPLE"; W "SW_2" (P 0 5) "WIRE_GREEN";
      W (P 0 6) "LED_0" "WIRE_GREEN";
      W (P 2 2) (P 1 1) "WIRE_YELLOW";
      W (P 1 3) (P 3 1) "WIRE_YELLOW";
      W (P 3 3) "LED_1" "WIRE_RED" ];
  logic := Some (fun i =>
    diff <- i.[0] .^ i.[1] .^ i.[2] ;;
    bout <- ((.! i.[0]) .& i.[1]) .| ((.! (i.[0] .^ i.[1])) .& i.[2]) ;;
    array_lit [val diff; val bout])
|}.

Definition multiplier_2bit : circuit := {|
  title := "2-Bit Multiplier";
  chips := [Chip "u1" "7408" 15; Chip "u2" "7486" 28; Chip "u3" "7408" 41];
  inputs := ["A0"; "A1"; "B0"; "B1"]; outputs := ["P0"; "P1"; "P2"; "P3"];
  wires :=
    powerWires14 0 ++ powerWires14 1 ++ powerWires14 2 ++
    [ W "SW_0" (P 0 1) "WIRE_BLUE"; W "SW_2" (P 0 2) "WIRE_ORANGE";
      W (P 0 3) "LED_0" "WIRE_GREEN";
      W "SW_1" (P 0 4) "WIRE_PURPLE"; W "SW_2" (P 0 5) "WIRE_ORANGE";
      W "SW_0" (P 0 9) "WIRE_BLUE"; W "SW_3" (P 0 10) "WIRE_YELLOW";
      W (P 0 6) (P 1 1) "WIRE_PURPLE"; W (P 0 8) (P 1 2) "WIRE_PURPLE";
      W (P 1 3) "LED_1" "WIRE_GREEN";
      W (P 2 6) "LED_3" "WIRE_RED" ];
  logic := Some (fun i =>
    a <- i.[0] .+ (i.[1] .* #2) ;;
    b <- i.[2] .+ (i.[3] .* #2) ;;
    p <- val a .* val b ;;
    array_lit [ val p .& #1; (val p .>> #1) .& #1;
                (val p .>> #2) .& #1; (val p .>> #3) .& #1 ])
|}.

Definition binary_gray : circuit := {|
  title := "Binary to Gray Code";
  chips := [Chip "u1" "7486" 25];
  inputs := ["B3"; "B2"; "B1"; "B0"]; outputs := ["G3"; "G2"; "G1"; "G0"];
  wires :=
    powerWires14 0 ++
    [ W "SW_0" "LED_0" "WIRE_BLUE";
      W "SW_0" (P 0 1) "WIRE_BLUE"; W "SW_1" (P 0 2) "WIRE_ORANGE";
      W (P 0 3) "LED_1" "WIRE_GREEN";
      W "SW_1" (P 0 4) "WIRE_ORANGE"; W "SW_2" (P 0 5) "WIRE_YELLOW";
      W (P 0 6) "LED_2" "WIRE_GREEN";
      W "SW_2" (P 0 9) "WIRE_YELLOW"; W "SW_3" (P 0 10) "WIRE_PURPLE";
      W (P 0 8) "LED_3" "WIRE_GREEN" ];
  logic := Some (fun i =>
    array_lit [i.[0]; i.[0] .^ i.[1]; i.[1] .^ i.[2]; i.[2] .^ i.[3]])
|}.

Definition mux_74153 : circuit := {|
  title := "4:1 Multiplexer (74153)";
  chips := [Chip "u1" "74153" 25];
  inputs := ["A"; "B"; "1C0"; "1C1"; "1C2"; "1C3"]; outputs := ["1Y"];
  wires :=
    powerWires 0 (PinCount 16) ++
    [ W "GND" (P 0 1) "WIRE_BLACK";
      W "SW_0" (P 0 14) "WIRE_BLUE";
      W "SW_1" (P 0 2) "WIRE_ORANGE";
      W "SW_2" (P 0 6) "WIRE_GREEN";
      W "SW_3" (P 0 5) "WIRE_GREEN";
      W "SW_4" (P 0 4) "WIRE_GREEN";
      W "SW_5" (P 0 3) "WIRE_GREEN";
      W (P 0 7) "LED_0" "WIRE_RED" ];
  logic := Some (fun i =>
    sel <- i.[1] .* #2 .+ i.[0] ;;
    If val sel .=== #0 Then array_lit [i.[2]] Else
    If val sel .=== #1 Then array_lit [i.[3]] Else
    If val sel .=== #2 Then array_lit [i.[4]] Else
    If val sel .=== #3 Then array_lit [i.[5]] Else
    array_lit [#0])
|}.

Definition decoder_74139 : circuit := {|
  title := "2-to-4 Decoder (74139)";
  chips := [Chip "u1" "74139" 25];
  inputs := ["A"; "B"; "En"]; outputs := ["Y0"; "Y1"; "Y2"; "Y3"];
  wires :=
    powerWires 0 (PinCount 16) ++
    [ W "SW_2" (P 0 1) "WIRE_BLACK";
      W "SW_0" (P 0 2) "WIRE_BLUE";
      W "SW_1" (P 0 3) "WIRE_ORANGE";
      W (P 0 4) "LED_0" "WIRE_RED";
      W (P 0 5) "LED_1" "WIRE_RED";
      W (P 0 6) "LED_2" "WIRE_RED";
      W (P 0 7) "LED_3" "WIRE_RED" ];
  logic := Some (fun i =>
    If i.[2] Then array_lit [#1; #1; #1; #1] Else
    sel <- i.[1] .* #2 .+ i.[0] ;;
    out <- array_lit [#1; #1; #1; #1] ;;
    _ <- array_set out sel (VNum 0) ;;
    array_map out (fun v => JS.not v))
|}.

Definition comparator_7485 : circuit := {|
  title := "4-Bit Magnitude Comparator";
  chips := [Chip "u1" "7485" 25];
  inputs := ["A1"; "A0"; "B1"; "B0"]; outputs := ["A>B"; "A=B"; "A<B"];
  wires :=
    powerWires 0 (PinCount 16) ++
    [ W "GND" (P 0 15) "WIRE_BLACK"; W "GND" (P 0 13) "WIRE_BLACK";
      W "GND" (P 0 1) "WIRE_BLACK"; W "GND" (P 0 14) "WIRE_BLACK";
      W "VCC" (P 0 3) "WIRE_RED";
      W "GND" (P 0 2) "WIRE_BLACK"; W "GND" (P 0 4) "WIRE_BLACK";
      W "SW_0" (P 0 12) "WIRE_BLUE"; W "SW_1" (P 0 10) "WIRE_BLUE";
      W "SW_2" (P 0 11) "WIRE_ORANGE"; W "SW_3" (P 0 9) "WIRE_ORANGE";
      W (P 0 5) "LED_0" "WIRE_GREEN";
      W (P 0 6) "LED_1" "WIRE_YELLOW";
      W (P 0 7) "LED_2" "WIRE_RED" ];
  logic := Some (fun i =>
    a <- i.[0] .* #2 .+ i.[1] ;;
    b <- i.[2] .* #2 .+ i.[3] ;;
    array_lit [val a .> val b; val a .=== val b; val a .< val b])
|}.

Definition d_ff_7474 : circuit := {|
  title := "D Flip-Flop (7474)";
  chips := [Chip "u1" "7474" 25];
  inputs := ["D"; "CLK"; "PRE"; "CLR"]; outputs := ["Q"; "/Q"];
  wires :=
    powerWires 0 (PinCount 14) ++
    [ W "SW_2" (P 0 4) "WIRE_RED";
      W "SW_3" (P 0 1) "WIRE_RED";
      W "SW_0" (P 0 2) "WIRE_BLUE";
      W "SW_1" (P 0 3) "WIRE_YELLOW";
      W (P 0 5) "LED_0" "WIRE_GREEN";
      W (P 0 6) "LED_1" "WIRE_ORANGE" ];
  logic := Some (fun i =>
    If .! i.[3] Then array_lit [#0; #1] Else
    If .! i.[2] Then array_lit [#1; #0] Else
    array_lit [i.[0]; .! i.[0]])
|}.

Definition jk_ff_7476 : circuit := {|
  title := "JK Flip-Flop (7476)";
  chips := [Chip "u1" "7476" 25];
  inputs := ["J"; "K"; "CLK"]; outputs := ["Q"; "/Q"];
  wires :=
    powerWires 0 (PinName "7476") ++
    [ W "SW_0" (P 0 4) "WIRE_BLUE";
      W "SW_1" (P 0 16) "WIRE_ORANGE";
      W "SW_2" (P 0 1) "WIRE_YELLOW";
      W "VCC" (P 0 2) "WIRE_RED";
      W "VCC" (P 0 3) "WIRE_RED";
      W (P 0 15) "LED_0" "WIRE_GREEN";
      W (P 0 14) "LED_1" "WIRE_RED" ];
  logic := Some (fun i =>
    j <- i.[0] ;; k <- i.[1] ;;
    If val j .&& .! val k Then array_lit [#1; #0] Else
    If .! val j .&& val k Then array_lit [#0; #1] Else
    If val j .&& val k Then array_lit [#1; #1] Else
    array_lit [#0; #1])
|}.

Definition counter_mod4 : circuit := {|
  title := "Mod-4 Asynchronous Counter";
  chips := [Chip "u1" "7476" 25];
  inputs := ["CLK"]; outputs := ["Q0"; "Q1"];
  wires :=
    powerWires 0 (PinName "7476") ++
    [ W "VCC" (P 0 4) "WIRE_RED"; W "VCC" (P 0 16) "WIRE_RED";
      W "VCC" (P 0 9) "WIRE_RED"; W "VCC" (P 0 12) "WIRE_RED";
      W "VCC" (P 0 2) "WIRE_RED"; W "VCC" (P 0 3) "WIRE_RED";
      W "VCC" (P 0 7) "WIRE_RED"; W "VCC" (P 0 8) "WIRE_RED";
      W "SW_0" (P 0 1) "WIRE_YELLOW";
      W (P 0 15) (P 0 6) "WIRE_PURPLE";
      W (P 0 15) "LED_0" "WIRE_GREEN";
      W (P 0 11) "LED_1" "WIRE_GREEN" ];
  logic := Some (fun i => array_lit [i.[0]; .! i.[0]])
|}.

End Recipes.

Definition RECIPES : list (string * circuit) :=
  [ ("basic_gates", Recipes.basic_gates);
    ("not_using_nand", Recipes.not_using_nand);
    ("and_using_nand", Recipes.and_using_nand);
    ("or_using_nand", Recipes.or_using_nand);
    ("not_using_nor", Recipes.not_using_nor);
    ("or_using_nor", Recipes.or_using_nor);
    ("and_using_nor", Recipes.and_using_nor);
    ("half_adder", Recipes.half_adder);
    ("full_adder", Recipes.full_adder);
    ("half_subtractor", Recipes.half_subtractor);
    ("full_subtractor", Recipes.full_subtractor);
    ("multiplier_2bit", Recipes.multiplier_2bit);
    ("binary_gray", Recipes.binary_gray);
    ("mux_74153", Recipes.mux_74153);
    ("decoder_74139", Recipes.decoder_74139);
    ("comparator_7485", Recipes.comparator_7485);
    ("d_ff_7474", Recipes.d_ff_7474);
    ("jk_ff_7476", Recipes.jk_ff_7476);
    ("counter_mod4", Recipes.counter_mod4) ].

(** ** The evaluator *)

(** The callback of the [outputs] memo:
    [try { return activeRecipe.logic ? activeRecipe.logic(inputs)
                                     : [0,0,0,0]; }
     catch { return [0,0,0,0]; }] *)
Definition evaluate (activeRecipe : circuit) (inputs : ref) : M ref :=
  try_catch
    match logic activeRecipe with
    | Some f => f inputs
    | None => array_lit [#0; #0; #0; #0]
    end
    (array_lit [#0; #0; #0; #0]).

(** [evaluate] called on a newly built input array, in a store that
    holds nothing else; the contents of the array it returns. *)
Definition evaluate_on (c : circuit) (inputs : list jsval) : option jsarray :=
  match evaluate c 0%nat [dense inputs] with
  | (Normal r, h) => h !! r
  | (Throw _, _) => None
  end.

(** ** Strings

    The string methods used by the resolver, on strings of bytes. *)

Fixpoint includes (sub s : string) : bool :=
  String.prefix sub s ||
  match s with
  | EmptyString => false
  | String _ s' => includes sub s'
  end.

(** [s.split(sep)] for a separator of one character. *)
Fixpoint split (sep : ascii) (s : string) : list string :=
  match s with
  | EmptyString => [EmptyString]
  | String c s' =>
      if Ascii.eqb c sep then EmptyString :: split sep s'
      else
        match split sep s' with
        | piece :: rest => String c piece :: rest
        | [] => [String c EmptyString]
        end
  end.

Definition is_space (c : ascii) : bool :=
  let n := nat_of_ascii c in
  ((9 <=? n) && (n <=? 13) || (n =? 32))%nat.

Fixpoint skip_spaces (s : string) : string :=
  match s with
  | String c s' => if is_space c then skip_spaces s' else s
  | EmptyString => s
  end.

(** The value of a character as a digit in the given radix. *)
Definition digit_of (radix : Z) (c : ascii) : option Z :=
  let n := Z.of_nat (nat_of_ascii c) in
  let d :=
    (if (48 <=? n) && (n <=? 57) then n - 48
     else if (97 <=? n) && (n <=? 122) then n - 87
     else if (65 <=? n) && (n <=? 90) then n - 55
     else radix)%Z in
  if (d <? radix)%Z then Some d else None.

(** The longest prefix of digits, read in the given radix; [None] when
    there is no digit. *)
Fixpoint digits (radix : Z) (acc : option Z) (s : string) : option Z :=
  match s with
  | String c s' =>
      match digit_of radix c with
      | Some d => digits radix (Some (default 0 acc * radix + d)) s'
      | None => acc
      end
  | EmptyString => acc
  end.

(** [parseInt(v)] with no radix argument, for [v] a string or
    [undefined]; [None] stands for [NaN]. *)
Definition parseInt (v : option string) : option Z :=
  match v with
  | None => None
  | Some s =>
      let s1 := skip_spaces s in
      let '(sign, s2) :=
        match s1 with
        | String "-" r => (-1, r)
        | String "+" r => (1, r)
        | _ => (1, s1)
        end in
      let '(radix, s3) :=
        match s2 with
        | String "0" (String "x" r) => (16, r)
        | String "0" (String "X" r) => (16, r)
        | _ => (10, s2)
        end in
      (fun n => sign * n) <$> digits radix None s3
  end.

(** [n || 0] for a number [n] *)
Definition or_zero (n : option Z) : Z := default 0 n.

(** ** The pin resolver

    Coordinates are rationals and their arithmetic is exact.  The
    coordinates of the catalog are multiples of 1/4 of moderate size, on
    which double arithmetic is exact too.  For a chip far off the board
    (a position near 10^17, say) the doubles of the code round and
    neighbouring pins get one coordinate, which the model does not
    show: what is proved about the order, distance or equality of
    coordinates is stated within [grid_position] and [exact_point]
    below.  A coordinate that is not a number ([NaN], from a chip
    without a numeric [x]) is outside the types of the model. *)

Definition CELL : Q := 15.
Definition OFF_X : Q := 140.
Definition OFF_Y : Q := 30.

Record coord : Type := Coord { x : Q; y : Q }.

(** [chips[c]]: an element only at an index inside the array. *)
Definition chip_at (chips : list chip) (c : Z) : option chip :=
  if (0 <=? c)%Z then chips !! Z.to_nat c else None.

(** [val.c] and [val.p]; a string has neither. *)
Definition field_c (val : endpoint) : option Z :=
  match val with
  | P c _ => Some c
  | Tok _ => None
  end.

Definition field_p (val : endpoint) : option Z :=
  match val with
  | P _ p => Some p
  | Tok _ => None
  end.

Definition is_16pin (type : string) : bool :=
  String.eqb type "7476" || String.eqb type "74153" ||
  String.eqb type "74139" || String.eqb type "7485".

(** The [try] block of [getCoords]; [Normal None] when control leaves
    the block without a [return].  An absent argument is [None]. *)
Definition getCoords_try (type : string) (val : option endpoint)
    (chips : option (list chip)) : completion (option coord) :=
  if String.eqb type "RAIL_VCC" then
    Normal (Some {| x := OFF_X + 10; y := OFF_Y + CELL * 1.5 |}%Q)
  else if String.eqb type "RAIL_GND" then
    Normal (Some {| x := OFF_X + 10; y := OFF_Y + CELL * 17.5 |}%Q)
  else if String.eqb type "SW" then
    match val with
    | Some (Tok s) =>
        let n := or_zero (parseInt (split "_" s !! 1%nat)) in
        Normal (Some {| x := OFF_X + (20 + inject_Z n * 2) * CELL;
                        y := OFF_Y + 16 * CELL |}%Q)
    | _ => Throw TypeError
    end
  else if String.eqb type "LED" then
    match val with
    | Some (Tok s) =>
        let n := or_zero (parseInt (split "_" s !! 1%nat)) in
        Normal (Some {| x := OFF_X + (55 * CELL);
                        y := OFF_Y + (4 + inject_Z n * 3) * CELL |}%Q)
    | _ => Throw TypeError
    end
  else if String.eqb type "PIN" then
    match val, chips with
    | Some v, Some chips =>
        let c := or_zero (field_c v) in
        let pin := match or_zero (field_p v) with 0 => 1 | p => p end in
        match chip_at chips c with
        | Some chip =>
            let chipX := (OFF_X + (chip_x chip * CELL))%Q in
            let chipY := (OFF_Y + 6 * CELL)%Q in
            let maxBottom := if is_16pin (chip_type chip) then 8 else 7 in
            let maxTop := maxBottom * 2 in
            if (pin <=? maxBottom)%Z then
              Normal (Some {| x := chipX + (inject_Z pin - 1) * CELL + 5;
                              y := chipY + 4.5 * CELL |}%Q)
            else
              Normal (Some {| x := chipX + (inject_Z maxTop - inject_Z pin) * CELL + 5;
                              y := chipY - 0.5 * CELL |}%Q)
        | None => Throw TypeError
        end
    | _, _ => Throw TypeError
    end
  else Normal None.

Definition getCoords (type : string) (val : option endpoint)
    (chips : option (list chip)) : coord :=
  let def := {| x := 0; y := 0 |}%Q in
  match getCoords_try type val chips with
  | Normal (Some p) => p
  | Normal None => def
  | Throw _ => def
  end.

(** ** The wire component *)

(** [a % b]: the remainder has the sign of the dividend. *)
Definition Qtrunc (q : Q) : Z := Z.quot (Qnum q) (Zpos (Qden q)).
Definition Qrem (a b : Q) : Q := (a - b * inject_Z (Qtrunc (a / b)))%Q.

(** [!n] for a number [n] *)
Definition is_zero (n : Q) : bool := Qeq_bool n 0.

(** What [Wire] draws: the points of the path [d] (the [M] point and the
    three [L] points), the stroke colour and the two end dots. *)
Record drawing : Type := Drawing {
  d : list coord;
  stroke : string;
  dots : list coord
}.

(** The component [Wire]: [None] is the [null] it returns when it draws
    nothing.  An absent prop is [None]. *)
Definition Wire (p1 p2 : option coord) (color : string) : option drawing :=
  match p1, p2 with
  | Some p1, Some p2 =>
      if is_zero (x p1) || is_zero (x p2) then None
      else
        let midY := ((y p1 + y p2) / 2)%Q in
        let jitter := Qrem (x p1) 5 in
        Some {| d := [ Coord (x p1) (y p1);
                       Coord (x p1) (midY + jitter)%Q;
                       Coord (x p2) (midY + jitter)%Q;
                       Coord (x p2) (y p2) ];
                stroke := color;
                dots := [p1; p2] |}
  | _, _ => None
  end.

(** The own keys of [COLORS]. *)
Definition COLORS : list (string * string) :=
  [ ("BG", "#121212");
    ("BOARD_BODY", "#e5e7eb");
    ("BOARD_GROOVE", "#d1d5db");
    ("PIN_HOLE", "#9ca3af");
    ("VCC_RAIL", "#f87171");
    ("GND_RAIL", "#60a5fa");
    ("IC_BODY", "#1f2937");
    ("IC_TEXT", "#f3f4f6");
    ("WIRE_RED", "#ef4444");
    ("WIRE_BLACK", "#111827");
    ("WIRE_BLUE", "#3b82f6");
    ("WIRE_ORANGE", "#f97316");
    ("WIRE_GREEN", "#22c55e");
    ("WIRE_PURPLE", "#a855f7");
    ("WIRE_YELLOW", "#eab308");
    ("LED_ON", "#ef4444");
    ("LED_OFF", "#450a0a") ].

Fixpoint assoc {A} (k : string) (l : list (string * A)) : option A :=
  match l with
  | [] => None
  | (k', v) :: l' => if String.eqb k k' then Some v else assoc k l'
  end.

(** [COLORS[w.color] || COLORS.WIRE_GREEN], for the own keys of
    [COLORS]; a key inherited from [Object.prototype], such as
    ['constructor'], is not modelled. *)
Definition wire_colour (w : wire) : string :=
  match assoc (color w) COLORS with
  | Some c => c
  | None => "#22c55e"
  end.

(** [e === s] and [typeof e === 'string' && e.includes(s)] *)
Definition is_token (e : endpoint) (s : string) : bool :=
  match e with
  | Tok t => String.eqb t s
  | P _ _ => false
  end.

Definition token_includes (e : endpoint) (s : string) : bool :=
  match e with
  | Tok t => includes s t
  | P _ _ => false
  end.

(** The body of [activeRecipe.wires.map((w, i) => ...)]: the two
    assignments to [p1] and [p2], then the [Wire] element. *)
Definition wire_p1 (activeRecipe : circuit) (w : wire) : coord :=
  if is_token (w_s w) "VCC" then getCoords "RAIL_VCC" None None
  else if is_token (w_s w) "GND" then getCoords "RAIL_GND" None None
  else if token_includes (w_s w) "SW" then getCoords "SW" (Some (w_s w)) None
  else getCoords "PIN" (Some (w_s w)) (Some (chips activeRecipe)).

Definition wire_p2 (activeRecipe : circuit) (w : wire) : coord :=
  if token_includes (w_e w) "LED" then getCoords "LED" (Some (w_e w)) None
  else getCoords "PIN" (Some (w_e w)) (Some (chips activeRecipe)).

Definition render_wire (activeRecipe : circuit) (w : wire) : option drawing :=
  Wire (Some (wire_p1 activeRecipe w)) (Some (wire_p2 activeRecipe w)) (wire_colour w).

Definition render_wires (activeRecipe : circuit) : list (option drawing) :=
  render_wire activeRecipe <$> wires activeRecipe.

(** ** Vocabulary of the properties *)

Open Scope list_scope.
Open Scope Z_scope.

(** Two arrays that no element read tells apart. *)
Definition agree (a b : jsarray) : Prop := forall k, read a k = read b k.

(** A function that only reads its argument and allocates: it returns a
    new array, leaves every array of the store as it was, and what it
    allocates depends on nothing but the elements read. *)
Definition alloc_only (f : ref -> M ref) : Prop :=
  forall (h : heap) (ia : ref) (arr : jsarray) (h' : heap) (ia' : ref) (arr' : jsarray),
    h !! ia = Some arr -> h' !! ia' = Some arr' -> agree arr arr' ->
    exists (ext : list jsarray) (k : nat),
      f ia h = (Normal (k + length h)%nat, h ++ ext) /\
      f ia' h' = (Normal (k + length h')%nat, h' ++ ext) /\
      is_Some (ext !! k).

(** A circuit whose [logic] is present and only reads and allocates. *)
Definition well_behaved (c : circuit) : Prop :=
  exists f, logic c = Some f /\ alloc_only f.

Definition zeros4 : jsarray := dense [VNum 0; VNum 0; VNum 0; VNum 0].

(** A description whose [logic] is not callable, as a generated
    description can be: calling it throws. *)
Definition not_callable : circuit := {|
  title := "";
  chips := []; inputs := ["A"]; outputs := ["Y"]; wires := [];
  logic := Some (fun _ => throw TypeError)
|}.

(** The chip a wire end is looked up in, when the loop resolves that end
    as a pin: [None] for an end resolved as a rail, a switch or an LED.
    A token that is none of these is resolved as a pin of chip 0. *)
Definition pin_chip_s (e : endpoint) : option Z :=
  if is_token e "VCC" || is_token e "GND" || token_includes e "SW" then None
  else Some (or_zero (field_c e)).

Definition pin_chip_e (e : endpoint) : option Z :=
  if token_includes e "LED" then None else Some (or_zero (field_c e)).

Definition no_such_chip (chips : list chip) (oc : option Z) : Prop :=
  match oc with
  | Some c => chip_at chips c = None
  | None => False
  end.

Definition with_wires (a : circuit) (ws : list wire) : circuit :=
  {| title := title a; chips := chips a; inputs := inputs a;
     outputs := outputs a; wires := ws; logic := logic a |}.

Definition integer_x (ch : chip) : Prop := exists z, chip_x ch = inject_Z z.

(** The inverter with one more wire, to pin 1 of a chip 3 that the
    description does not have. *)
Definition dangling_wire : wire := W "SW_0" (P 3 1) "WIRE_BLUE".

(** A 14-pin chip with one wire, to its pin 20. *)
Definition stray_pin : circuit := {|
  title := "";
  chips := [Chip "u1" "7408" 20];
  inputs := ["A"]; outputs := ["Y"];
  wires := [W "SW_0" (P 0 20) "WIRE_BLUE"];
  logic := None
|}.

Open Scope Q_scope.

(** The coordinate of pin [p] of chip [c]. *)
Definition pin_coord (chips : list chip) (c p : Z) : coord :=
  getCoords "PIN" (Some (P c p)) (Some chips).

(** Pins per row, by part type. *)
Definition pins_per_row (type : string) : Z :=
  if bool_decide (type ∈ ["7476"; "74153"; "74139"; "7485"]%string) then 8%Z else 7%Z.

(** Pins of a chip, by the package: 14 or 16. *)
Definition maxPin (ch : chip) : Z := (2 * pins_per_row (chip_type ch))%Z.

(** An endpoint that [Wire] refuses: absent, or with [x] zero. *)
Definition unresolved (p : option coord) : Prop :=
  match p with
  | Some a => x a == 0
  | None => True
  end.

Close Scope Q_scope.

(** ** Vocabulary of the further properties *)

(** A switch or LED level as the component has it: the number 0 or 1. *)
Definition bit (b : bool) : jsval := VNum (Z.b2z b).

(** Whether an output lights its LED: [isOn ? LED_ON : LED_OFF]. *)
Definition lights (out : option jsarray) (i : nat) : bool :=
  match out with
  | Some arr => ToBoolean (read arr i)
  | None => false
  end.

(** The input vector of the code converter for the number [n]: B3 first. *)
Definition bits4 (n : nat) : list jsval :=
  [bit (Nat.testbit n 3); bit (Nat.testbit n 2); bit (Nat.testbit n 1); bit (Nat.testbit n 0)].

(** The number of LEDs, among the first [k], that two outputs light
    differently. *)
Definition leds_changed (k : nat) (out1 out2 : option jsarray) : nat :=
  length (filter (fun i => lights out1 i <> lights out2 i) (seq 0 k)).

(** The value of a two-bit word, high bit first. *)
Definition word2 (hi lo : bool) : Z := 2 * Z.b2z hi + Z.b2z lo.

(** Two arrays that no read below index [n] tells apart. *)
Definition agree_upto (n : nat) (a b : jsarray) : Prop :=
  forall k, (k < n)%nat -> read a k = read b k.

(** A function that reads its argument below index [n] only, and
    otherwise only allocates. *)
Definition reads_below (n : nat) (f : ref -> M ref) : Prop :=
  forall (h : heap) (ia : ref) (arr : jsarray) (h' : heap) (ia' : ref) (arr' : jsarray),
    h !! ia = Some arr -> h' !! ia' = Some arr' -> agree_upto n arr arr' ->
    exists (ext : list jsarray) (k : nat),
      f ia h = (Normal (k + length h)%nat, h ++ ext) /\
      f ia' h' = (Normal (k + length h')%nat, h' ++ ext) /\
      is_Some (ext !! k).

Definition reads_declared (c : circuit) : Prop :=
  exists f, logic c = Some f /\ reads_below (length (inputs c)) f.

(** All vectors of [n] booleans. *)
Fixpoint bool_vectors (n : nat) : list (list bool) :=
  match n with
  | O => [[]]
  | S n' => ((cons false) <$> bool_vectors n') ++ ((cons true) <$> bool_vectors n')
  end.

(** A value an LED can show without ambiguity: a boolean, 0 or 1. *)
Definition led_value (v : jsval) : bool :=
  match v with
  | VBool _ => true
  | VNum z => (z =? 0) || (z =? 1)
  | _ => false
  end.

Definition led_slot (s : option jsval) : bool :=
  match s with
  | Some v => led_value v
  | None => false
  end.

(** The output on a vector of switch levels has one entry for each
    declared output, each an LED value. *)
Definition outputs_well_formed (c : circuit) (bs : list bool) : bool :=
  match evaluate_on c (bit <$> bs) with
  | Some arr => (length arr =? length (outputs c))%nat && forallb led_slot arr
  | None => false
  end.

(** ** The switch handler *)

(** [[...a]]: a new array of the elements of [a], in which a hole of
    [a] is copied as [undefined]. *)
Definition spread (a : ref) : M ref :=
  fun h =>
    match h !! a with
    | Some arr => alloc (dense (read arr <$> seq 0 (length arr))) h
    | None => (Throw TypeError, h)
    end.

(** [c ? e1 : e2] *)
Definition cond (c e1 e2 : M jsval) : M jsval :=
  b <- c ;; if ToBoolean b then e1 else e2.

(** The click handler of switch [i],
    [const n = [...inputs]; n[i] = n[i] ? 0 : 1; setInputs(n)]:
    the array that is handed to [setInputs]. *)
Definition toggle (inputs : ref) (i : nat) : M ref :=
  n <- spread inputs ;;
  v <- cond n.[i] #0 #1 ;;
  _ <- array_set n (VNum (Z.of_nat i)) v ;;
  ret n.

(** The level a switch takes when clicked. *)
Definition flipped (v : jsval) : jsval := if ToBoolean v then VNum 0 else VNum 1.

(** ** The search handler *)

Definition to_lower (c : ascii) : ascii :=
  let n := nat_of_ascii c in
  if ((65 <=? n) && (n <=? 90))%nat then ascii_of_nat (n + 32) else c.

(** [s.toLowerCase()] and [s.trim()], on strings of bytes: the letters
    A to Z are lowered and the white space removed is the ASCII one.
    On ASCII text these are the built-in methods; the built-in ones
    also lower letters outside ASCII and remove the Unicode spaces
    (U+00A0, U+3000, U+FEFF and the like), which the model keeps. *)
Fixpoint toLowerCase (s : string) : string :=
  match s with
  | EmptyString => EmptyString
  | String c s' => String (to_lower c) (toLowerCase s')
  end.

Fixpoint trim_end (s : string) : string :=
  match s with
  | EmptyString => EmptyString
  | String c s' =>
      match trim_end s' with
      | EmptyString => if is_space c then EmptyString else String c EmptyString
      | t => String c t
      end
  end.

Definition trim (s : string) : string := trim_end (skip_spaces s).

(** The chain that maps the search terms to a key; [None] is the
    [null] that [key] starts with. *)
Definition search_key (q : string) : option string :=
  if includes "mux" q || includes "153" q then Some "mux_74153"
  else if includes "decod" q || includes "139" q then Some "decoder_74139"
  else if includes "compar" q || includes "7485" q then Some "comparator_7485"
  else if includes "jk" q || includes "7476" q then Some "jk_ff_7476"
  else if includes "d flip" q || includes "7474" q then Some "d_ff_7474"
  else if includes "counter" q then Some "counter_mod4"
  else if includes "gray" q then Some "binary_gray"
  else if includes "sub" q && includes "full" q then Some "full_subtractor"
  else if includes "sub" q && includes "half" q then Some "half_subtractor"
  else if includes "add" q && includes "full" q then Some "full_adder"
  else if includes "add" q && includes "half" q then Some "half_adder"
  else if includes "mul" q then Some "multiplier_2bit"
  else if includes "nand" q && includes "not" q then Some "not_using_nand"
  else if includes "nand" q && includes "and" q then Some "and_using_nand"
  else if includes "nand" q && includes "or" q then Some "or_using_nand"
  else if includes "nor" q && includes "not" q then Some "not_using_nor"
  else if includes "nor" q && includes "or" q then Some "or_using_nor"
  else if includes "nor" q && includes "and" q then Some "and_using_nor"
  else if includes "gate" q || includes "logic" q then Some "basic_gates"
  else None.

(** What [handleSearch] does with the text of the search box: nothing,
    load a catalog entry and reset the switches, or hand the query to
    the generator. *)
Inductive search_result : Type :=
  | NoSearch
  | Loaded (c : circuit) (inputs : list jsval)
  | AskGenerator (q : string).

Definition handleSearch (search : string) : search_result :=
  let q := toLowerCase (trim search) in
  if String.eqb q "" then NoSearch
  else
    match search_key q with
    | Some key =>
        match assoc key RECIPES with
        | Some c => Loaded c [VNum 0; VNum 0; VNum 0; VNum 0; VNum 0; VNum 0]
        | None => AskGenerator q
        end
    | None => AskGenerator q
    end.

(** The characters of a string. *)
Fixpoint chars (s : string) : list ascii :=
  match s with
  | EmptyString => []
  | String c s' => c :: chars s'
  end.

(** ** The LED markers *)

(** What the loop over [activeRecipe.outputs] draws for one output: the
    place of the marker, the fill of the LED, whether the halo is
    drawn, and the label. *)
Record led : Type := Led {
  led_at : coord;
  led_fill : string;
  led_halo : bool;
  led_label : string
}.

(** The template [`LED_${i}`] for an index [i]; an index is printed in
    decimal. *)
Definition led_token (i : nat) : string := "LED_" +:+ pretty i.

Definition COLOR (key : string) : string := default "" (assoc key COLORS).

(** The body of [activeRecipe.outputs.map((lbl, i) => ...)], given the
    contents of [outputs]; [None] is the [null] of a marker that is not
    drawn. *)
Definition led_marker (activeRecipe : circuit) (outs : jsarray) (i : nat) (lbl : string)
    : option led :=
  let pos := getCoords "LED" (Some (Tok (led_token i))) (Some (chips activeRecipe)) in
  if Qeq_bool (x pos) 0 then None
  else
    let isOn := read outs i in
    Some {| led_at := pos;
            led_fill := if ToBoolean isOn then COLOR "LED_ON" else COLOR "LED_OFF";
            led_halo := ToBoolean isOn;
            led_label := lbl |}.

Definition led_markers (activeRecipe : circuit) (outs : jsarray) : list (option led) :=
  imap (led_marker activeRecipe outs) (outputs activeRecipe).

(** A string of decimal digits and the number it denotes, continuing
    from [acc]. *)
Definition is_decimal (c : ascii) : Prop := exists d, 0 <= d < 10 /\ digit_of 10 c = Some d.

Fixpoint decimal (acc : Z) (s : string) : Z :=
  match s with
  | EmptyString => acc
  | String c s' => decimal (acc * 10 + default 0 (digit_of 10 c)) s'
  end.

(** ** The chips on the board *)

Record rect : Type := Rect { rx : Q; ry : Q; rw : Q; rh : Q }.

(** What the loop over [activeRecipe.chips] draws for one chip, in
    board coordinates (the offsets of the enclosing group added): the
    body, the label, and for each column a top leg and a bottom leg.
    The notch is left out. *)
Record chip_drawing : Type := ChipDrawing {
  body : rect;
  label : string;
  legs : list (rect * rect)
}.

Definition draw_chip (ch : chip) : chip_drawing :=
  let w := if is_16pin (chip_type ch) then 8%nat else 7%nat in
  let gx := (OFF_X + chip_x ch * CELL)%Q in
  let gy := (OFF_Y + 7 * CELL)%Q in
  {| body := Rect gx gy (inject_Z (Z.of_nat w) * CELL)%Q (5 * CELL)%Q;
     label := chip_type ch;
     legs :=
       (fun i : nat =>
          (Rect (gx + (inject_Z (Z.of_nat i) * CELL + 4)) (gy + -3) 6 4,
           Rect (gx + (inject_Z (Z.of_nat i) * CELL + 4)) (gy + (5 * CELL - 1)) 6 4)%Q)
       <$> seq 0 w |}.

(** The column of the leg that pin [p] is wired at. *)
Definition leg_column (N p : Z) : nat :=
  Z.to_nat (if p <=? N then p - 1 else 2 * N - p).

(** ** Well-formed wires *)

(** The index in a token that contains [prefix], as the resolver reads
    it. *)
Definition token_index (prefix : string) (e : endpoint) : option Z :=
  match e with
  | Tok s =>
      if includes prefix s then Some (or_zero (parseInt (split "_" s !! 1%nat))) else None
  | P _ _ => None
  end.

Definition index_below (oi : option Z) (n : nat) : bool :=
  match oi with
  | Some i => (0 <=? i) && (i <? Z.of_nat n)
  | None => false
  end.

(** A pin of a chip that the description has, within its package. *)
Definition valid_pin (c : circuit) (e : endpoint) : bool :=
  match e with
  | P ci p =>
      match chip_at (chips c) ci with
      | Some ch => (1 <=? p) && (p <=? maxPin ch)
      | None => false
      end
  | Tok _ => false
  end.

Definition valid_source (c : circuit) (e : endpoint) : bool :=
  is_token e "VCC" || is_token e "GND"
  || index_below (token_index "SW" e) (length (inputs c))
  || valid_pin c e.

Definition valid_end (c : circuit) (e : endpoint) : bool :=
  index_below (token_index "LED" e) (length (outputs c)) || valid_pin c e.

(** A point on the board, which is 63 cells wide and 20 cells high. *)
Definition on_board (p : coord) : bool :=
  Qle_bool OFF_X (x p) && Qle_bool (x p) (OFF_X + 63 * CELL)%Q &&
  Qle_bool OFF_Y (y p) && Qle_bool (y p) (OFF_Y + 20 * CELL)%Q.

Definition wire_well_formed (c : circuit) (w : wire) : bool :=
  valid_source c (w_s w) && valid_end c (w_e w) &&
  match render_wire c w with
  | Some dr => forallb on_board (d dr)
  | None => false
  end.

(** The supply pins of a part: VCC and GND. *)
Definition supply_pins (type : string) : Z * Z :=
  if String.eqb type "7476" then (5, 13)
  else if is_16pin type then (16, 8)
  else (14, 7).

Definition endpoint_eqb (a b : endpoint) : bool :=
  match a, b with
  | Tok s, Tok t => String.eqb s t
  | P c p, P c' p' => (c =? c') && (p =? p')
  | _, _ => false
  end.

Definition has_wire (c : circuit) (s e : endpoint) : bool :=
  existsb (fun w => endpoint_eqb (w_s w) s && endpoint_eqb (w_e w) e) (wires c).

Definition chip_powered (c : circuit) (ci : nat) (ch : chip) : bool :=
  has_wire c (Tok "VCC") (P (Z.of_nat ci) (supply_pins (chip_type ch)).1) &&
  has_wire c (Tok "GND") (P (Z.of_nat ci) (supply_pins (chip_type ch)).2).

(** ** The switch bank *)

(** The template of a switch token, [SW_] and the index in decimal, as
    the wires of the catalog spell it. *)
Definition sw_token (i : nat) : string := "SW_" +:+ pretty i.

(** What the loop over [activeRecipe.inputs] draws for switch [i], in
    board coordinates: the slot and, in its upper or lower half, the
    knob. *)
Definition draw_switch (inputs : jsarray) (i : nat) : rect * rect :=
  let gx := (OFF_X + 22 * CELL + inject_Z (Z.of_nat i) * 20)%Q in
  let gy := (OFF_Y + 16 * CELL)%Q in
  (Rect gx gy 10 30,
   Rect gx (gy + (if ToBoolean (read inputs i) then 0 else 15))%Q 10 15).

(** ** The range in which the arithmetic is exact

    The resolver and the wire component compute in doubles.  Where the
    properties below speak of the order, the distance or the equality
    of coordinates they are stated for the range in which every
    intermediate result of the code is a multiple of 1/8 below 2^45,
    which doubles represent exactly, so that the exact arithmetic of
    the model is the arithmetic of the code: chips at integer grid
    positions of magnitude at most 2^40, and points whose coordinates
    are quarters of integers of magnitude at most 2^42. *)

Definition grid_position (ch : chip) : Prop :=
  exists z, chip_x ch = inject_Z z /\ (Z.abs z <= 2 ^ 40)%Z.

Definition quarter (q : Q) : Prop :=
  exists k, (q == inject_Z k / 4)%Q /\ (Z.abs k <= 2 ^ 42)%Z.

Definition exact_point (p : coord) : Prop := quarter (x p) /\ quarter (y p).

(** A character of the ASCII range, on which the string methods of the
    model agree with the built-in ones. *)
Definition is_ascii (c : ascii) : Prop := (nat_of_ascii c < 128)%nat.

(** * Properties *)

(** ** The store *)

Lemma lookup_fresh (h : heap) (a : jsarray) : (h ++ [a]) !! length h = Some a.
Proof. by apply list_lookup_middle. Qed.

Lemma insert_fresh (h : heap) (a b : jsarray) :
  <[length h := b]> (h ++ [a]) = h ++ [b].
Proof.
  rewrite insert_app_r_alt by lia. by rewrite Nat.sub_diag.
Qed.

Ltac step_logic H H' Hag :=
  cbv [array_lit eval_list lift2 lift1 land ifte bind ret val lit index alloc];
  repeat first
    [ progress (rewrite ?H, ?H'; cbv beta iota; rewrite ?Hag)
    | match goal with
      | |- context [if ToBoolean ?c then _ else _] => destruct (ToBoolean c)
      end ].

Ltac one_array :=
  eexists [_], 0%nat; split; [reflexivity | split; [reflexivity | by eexists]].

Ltac alloc_only_tac :=
  let H := fresh "H" in let H' := fresh "H'" in let Hag := fresh "Hag" in
  intros ? ? ? ? ? ? H H' Hag; step_logic H H' Hag; one_array.

(** The decoder builds an array, writes to it and maps it: two
    allocations, and the write lands in the array it has just built. *)
Lemma decoder_alloc_only : well_behaved Recipes.decoder_74139.
Proof.
  eexists; split; [reflexivity|].
  intros h ia arr h' ia' arr' H H' Hag.
  cbv [array_set array_map].
  step_logic H H' Hag; [one_array|].
  rewrite !lookup_fresh.
  destruct (array_index _) as [n|]; cbv beta iota;
    rewrite ?insert_fresh, !lookup_fresh;
    rewrite !length_app, <- !app_assoc; simpl; rewrite !Nat.add_1_r;
    (eexists [_; _], 1%nat; split; [reflexivity | split; [reflexivity | by eexists]]).
Qed.

Lemma catalog_well_behaved : Forall (fun kc => well_behaved kc.2) RECIPES.
Proof.
  unfold RECIPES.
  repeat (apply Forall_cons_2; [|]); [.. | apply Forall_nil_2];
    first [ apply decoder_alloc_only
          | eexists; split; [reflexivity | alloc_only_tac] ].
Qed.

Lemma catalog_lookup (key : string) (c : circuit) :
  assoc key RECIPES = Some c -> well_behaved c.
Proof.
  intros Hk.
  assert (Hin : (key, c) ∈ RECIPES).
  { revert Hk. generalize RECIPES. intros l. induction l as [|[k' c'] l IH]; [done|].
    simpl. destruct (String.eqb key k') eqn:E.
    - intros [= ->]. apply String.eqb_eq in E as ->. left.
    - intros Hl. right. by apply IH. }
  pose proof catalog_well_behaved as Hall.
  rewrite Forall_forall in Hall. exact (Hall _ Hin).
Qed.

(** [evaluate] on a well-behaved circuit is the circuit's [logic]. *)
Lemma evaluate_well_behaved (c : circuit) (f : ref -> M ref) (ia r : ref) (h h' : heap) :
  logic c = Some f -> f ia h = (Normal r, h') -> evaluate c ia h = (Normal r, h').
Proof.
  intros Hf Hrun. unfold evaluate, try_catch. by rewrite Hf, Hrun.
Qed.

Lemma fallback_run (h : heap) :
  array_lit [#0; #0; #0; #0] h = (Normal (length h), h ++ [zeros4]).
Proof. reflexivity. Qed.

(** ** Truth tables *)

(** C1: on the input vectors (1,1) and (1,0) the half adder returns
    (Sum=0, Cout=1) and (1,0); on (1,1,1) and (1,0,0) the full adder
    returns (Sum=1, Cout=1) and (1,0).  Entries after the declared
    inputs, which the switch bank always supplies, change nothing. *)
Theorem adders_truth_table (rest : list jsval) :
  evaluate_on Recipes.half_adder ([VNum 1; VNum 1] ++ rest) = Some (dense [VNum 0; VNum 1]) /\
  evaluate_on Recipes.half_adder ([VNum 1; VNum 0] ++ rest) = Some (dense [VNum 1; VNum 0]) /\
  evaluate_on Recipes.full_adder ([VNum 1; VNum 1; VNum 1] ++ rest)
    = Some (dense [VNum 1; VNum 1]) /\
  evaluate_on Recipes.full_adder ([VNum 1; VNum 0; VNum 0] ++ rest)
    = Some (dense [VNum 1; VNum 0]).
Proof. repeat split; reflexivity. Qed.

(** C2: with the select inputs A=1 and B=1 the multiplexer returns the
    1C3 input, whatever the inputs 1C0, 1C1 and 1C2 are. *)
Theorem mux_selects_1C3 (c0 c1 c2 c3 : jsval) (rest : list jsval) :
  evaluate_on Recipes.mux_74153 ([VNum 1; VNum 1; c0; c1; c2; c3] ++ rest)
    = Some (dense [c3]).
Proof. reflexivity. Qed.

(** C9: with PRE=1 and CLR=1 the D flip-flop returns Q = D and
    /Q = !D, whatever D and CLK are. *)
Theorem d_ff_tracks_D (D CLK : jsval) (rest : list jsval) :
  evaluate_on Recipes.d_ff_7474 ([D; CLK; VNum 1; VNum 1] ++ rest)
    = Some (dense [D; JS.not D]).
Proof. reflexivity. Qed.

(** ** Failure and arity *)

(** C4: when the circuit's [logic] is absent, or throws on the given
    input, [evaluate] returns normally, and what it returns is a new
    array holding [0, 0, 0, 0]. *)
Theorem evaluate_absorbs_failure (c : circuit) (ia : ref) (h : heap) :
  logic c = None \/ (exists f e h0, logic c = Some f /\ f ia h = (Throw e, h0)) ->
  exists r h',
    evaluate c ia h = (Normal r, h') /\
    h' !! r = Some (dense [VNum 0; VNum 0; VNum 0; VNum 0]).
Proof.
  intros [Hnone | (f & e & h0 & Hf & Hthrow)]; unfold evaluate, try_catch.
  - rewrite Hnone, fallback_run. eexists _, _; split; [reflexivity|].
    apply lookup_fresh.
  - rewrite Hf, Hthrow, fallback_run. eexists _, _; split; [reflexivity|].
    apply lookup_fresh.
Qed.

Lemma evaluate_absorbs_failure_witness :
  exists r h',
    evaluate not_callable 0%nat [dense [VNum 1]] = (Normal r, h') /\
    h' !! r = Some (dense [VNum 0; VNum 0; VNum 0; VNum 0]).
Proof.
  apply (evaluate_absorbs_failure not_callable 0%nat [dense [VNum 1]]).
  right. eexists _, TypeError, _. split; reflexivity.
Defined.

Lemma agree_padded (l : list jsval) (n : nat) :
  agree (dense l) (dense (l ++ replicate n VUndef)).
Proof.
  intros k. unfold read, dense. rewrite !list_lookup_fmap.
  destruct (decide (k < length l)%nat) as [Hk|Hk].
  - by rewrite lookup_app_l.
  - rewrite lookup_app_r by lia. rewrite (lookup_ge_None_2 l k) by lia.
    simpl. destruct (replicate n VUndef !! (k - length l)%nat) as [v|] eqn:E; [|done].
    apply lookup_replicate in E as [-> _]. done.
Qed.

Lemma evaluate_on_well_behaved (c : circuit) (l l' : list jsval) :
  well_behaved c -> agree (dense l) (dense l') ->
  exists out, evaluate_on c l = Some out /\ evaluate_on c l' = Some out.
Proof.
  intros (f & Hf & Hlocal) Hag.
  destruct (Hlocal [dense l] 0%nat (dense l) [dense l'] 0%nat (dense l') eq_refl eq_refl Hag)
    as (ext & k & Hrun & Hrun' & [out Hout]).
  exists out. unfold evaluate_on.
  rewrite (evaluate_well_behaved _ _ _ _ _ _ Hf Hrun).
  rewrite (evaluate_well_behaved _ _ _ _ _ _ Hf Hrun').
  split; (rewrite lookup_app_r by (simpl; lia));
    (replace (k + _ - _)%nat with k by (simpl; lia)); done.
Qed.

(** In any store, [evaluate] on a reference to the vector [l] returns
    what [evaluate_on] returns on [l]. *)
Lemma evaluate_in_any_store (c : circuit) (h : heap) (ia : ref) (l : list jsval) :
  well_behaved c -> h !! ia = Some (dense l) ->
  exists r h', evaluate c ia h = (Normal r, h') /\ h' !! r = evaluate_on c l.
Proof.
  intros (f & Hf & Hlocal) Hia.
  destruct (Hlocal h ia (dense l) [dense l] 0%nat (dense l) Hia eq_refl (fun _ => eq_refl))
    as (ext & k & Hrun & Hrun' & [out Hout]).
  exists (k + length h)%nat, (h ++ ext). unfold evaluate_on.
  rewrite (evaluate_well_behaved _ _ _ _ _ _ Hf Hrun).
  rewrite (evaluate_well_behaved _ _ _ _ _ _ Hf Hrun').
  split; [done|]. rewrite !lookup_app_r by lia.
  by rewrite !Nat.add_sub.
Qed.

(** C3, as the code has it: [evaluate] compares no lengths.  For every
    circuit and every input array it returns normally: the result of
    [logic] when [logic] is present and returns, and otherwise a new
    array [0, 0, 0, 0], of four entries whatever [outputs] is.  For a
    circuit of the catalog an entry past the end of the vector reads
    [undefined]: a short vector gives what the same vector padded with
    [undefined] gives. *)
Theorem evaluate_ignores_arity :
  (forall (c : circuit) (ia : ref) (h : heap),
     exists r h',
       evaluate c ia h = (Normal r, h') /\
       match logic c with
       | Some f =>
           match f ia h with
           | (Normal r0, h0) => r = r0 /\ h' = h0
           | (Throw _, h0) => r = length h0 /\ h' = h0 ++ [zeros4]
           end
       | None => r = length h /\ h' = h ++ [zeros4]
       end) /\
  (forall (key : string) (c : circuit) (inputs : list jsval) (n : nat),
     assoc key RECIPES = Some c ->
     exists out,
       evaluate_on c inputs = Some out /\
       evaluate_on c (inputs ++ replicate n VUndef) = Some out).
Proof.
  split.
  - intros c ia h. unfold evaluate, try_catch.
    destruct (logic c) as [f|].
    + destruct (f ia h) as [[r0|e] h0].
      * by eexists _, _.
      * rewrite fallback_run. by eexists _, _.
    + rewrite fallback_run. by eexists _, _.
  - intros key c inputs n Hk.
    apply evaluate_on_well_behaved; [by eapply catalog_lookup | apply agree_padded].
Qed.

Lemma evaluate_ignores_arity_witness :
  exists out,
    evaluate_on Recipes.not_using_nand [] = Some out /\
    evaluate_on Recipes.not_using_nand ([] ++ replicate 1 VUndef) = Some out.
Proof.
  apply (proj2 evaluate_ignores_arity "not_using_nand" Recipes.not_using_nand [] 1%nat).
  reflexivity.
Defined.

(** C3 as stated fails: the inverter has one declared input and one
    declared output; on the empty vector it returns [true], and the
    two-gate circuit on a vector of one entry returns [0, 1]. *)
Lemma arity_mismatch_not_zeroed :
  length (@nil jsval) <> length (inputs Recipes.not_using_nand) /\
  evaluate_on Recipes.not_using_nand [] = Some (dense [VBool true]) /\
  evaluate_on Recipes.not_using_nand []
    <> Some (dense (replicate (length (outputs Recipes.not_using_nand)) (VNum 0))) /\
  length [VNum 1] <> length (inputs Recipes.basic_gates) /\
  evaluate_on Recipes.basic_gates [VNum 1] = Some (dense [VNum 0; VNum 1]) /\
  evaluate_on Recipes.basic_gates [VNum 1]
    <> Some (dense (replicate (length (outputs Recipes.basic_gates)) (VNum 0))).
Proof. repeat split; (reflexivity || discriminate). Qed.

(** ** The catalog is total and stateless *)

(** C10: for every circuit of the catalog and every input array, of any
    length and with any entries or holes, [logic] is present and returns
    an array without throwing; [evaluate] returns that very result, so
    its fallback is not reached. *)
Theorem catalog_logic_total (key : string) (c : circuit)
    (h : heap) (ia : ref) (arr : jsarray) :
  assoc key RECIPES = Some c ->
  h !! ia = Some arr ->
  exists f r h' out,
    logic c = Some f /\
    f ia h = (Normal r, h') /\
    h' !! r = Some out /\
    evaluate c ia h = (Normal r, h').
Proof.
  intros Hk Hia.
  destruct (catalog_lookup _ _ Hk) as (f & Hf & Hlocal).
  destruct (Hlocal h ia arr h ia arr Hia Hia (fun _ => eq_refl))
    as (ext & k & Hrun & _ & [out Hout]).
  exists f, (k + length h)%nat, (h ++ ext), out. repeat split; try done.
  - rewrite lookup_app_r by lia. by replace (k + _ - _)%nat with k by lia.
  - by apply (evaluate_well_behaved _ f).
Qed.

Lemma catalog_logic_total_witness :
  exists f r h' out,
    logic Recipes.mux_74153 = Some f /\
    f 0%nat [[Some (VNum 1); None]] = (Normal r, h') /\
    h' !! r = Some out /\
    evaluate Recipes.mux_74153 0%nat [[Some (VNum 1); None]] = (Normal r, h').
Proof.
  apply (catalog_logic_total "mux_74153" Recipes.mux_74153
           [[Some (VNum 1); None]] 0%nat [Some (VNum 1); None]); reflexivity.
Defined.

(** C8: for every circuit of the catalog and every input array, two
    calls of [evaluate] in a row both return, and return arrays with the
    same contents; the second call leaves the array returned by the
    first as it was, and neither call changes an array that existed
    before (the input array among them). *)
Theorem evaluate_idempotent (key : string) (c : circuit)
    (h : heap) (ia : ref) (arr : jsarray) :
  assoc key RECIPES = Some c ->
  h !! ia = Some arr ->
  exists r1 h1 r2 h2 out,
    evaluate c ia h = (Normal r1, h1) /\
    evaluate c ia h1 = (Normal r2, h2) /\
    h1 !! r1 = Some out /\
    h2 !! r2 = Some out /\
    h2 !! r1 = Some out /\
    (forall a v, h !! a = Some v -> h1 !! a = Some v /\ h2 !! a = Some v).
Proof.
  intros Hk Hia.
  destruct (catalog_lookup _ _ Hk) as (f & Hf & Hlocal).
  assert (Hia1 : forall ext, (h ++ ext) !! ia = Some arr)
    by (intros ext; by apply lookup_app_l_Some).
  destruct (Hlocal h ia arr h ia arr Hia Hia (fun _ => eq_refl))
    as (ext & k & Hrun & _ & [out Hout]).
  destruct (Hlocal h ia arr (h ++ ext) ia arr Hia (Hia1 ext) (fun _ => eq_refl))
    as (ext2 & k2 & Hrun1 & Hrun2 & _).
  rewrite Hrun in Hrun1. injection Hrun1 as Hk2 Hext.
  apply app_inv_head in Hext as <-.
  assert (k2 = k) as -> by lia.
  assert (H1 : (h ++ ext) !! (k + length h)%nat = Some out).
  { rewrite lookup_app_r by lia. by replace (k + _ - _)%nat with k by lia. }
  exists (k + length h)%nat, (h ++ ext), (k + length (h ++ ext))%nat,
         ((h ++ ext) ++ ext), out.
  repeat split.
  - by apply (evaluate_well_behaved _ f).
  - by apply (evaluate_well_behaved _ f).
  - done.
  - rewrite lookup_app_r by lia. by replace (k + _ - _)%nat with k by lia.
  - by apply lookup_app_l_Some.
  - by apply lookup_app_l_Some.
  - by do 2 apply lookup_app_l_Some.
Qed.

Lemma evaluate_idempotent_witness :
  exists r1 h1 r2 h2 out,
    evaluate Recipes.decoder_74139 0%nat [dense [VNum 1; VNum 0; VNum 0]] = (Normal r1, h1) /\
    evaluate Recipes.decoder_74139 0%nat h1 = (Normal r2, h2) /\
    h1 !! r1 = Some out /\
    h2 !! r2 = Some out /\
    h2 !! r1 = Some out /\
    (forall a v, [dense [VNum 1; VNum 0; VNum 0]] !! a = Some v ->
                 h1 !! a = Some v /\ h2 !! a = Some v).
Proof.
  apply (evaluate_idempotent "decoder_74139" Recipes.decoder_74139
           [dense [VNum 1; VNum 0; VNum 0]] 0%nat (dense [VNum 1; VNum 0; VNum 0]));
    reflexivity.
Defined.

(** ** Pin geometry *)

Open Scope Q_scope.

Lemma pins_per_row_code (type : string) :
  (if is_16pin type then 8%Z else 7%Z) = pins_per_row type.
Proof.
  unfold pins_per_row, is_16pin.
  destruct (String.eqb_spec type "7476") as [->|H1]; [done|].
  destruct (String.eqb_spec type "74153") as [->|H2]; [done|].
  destruct (String.eqb_spec type "74139") as [->|H3]; [done|].
  destruct (String.eqb_spec type "7485") as [->|H4]; [done|].
  rewrite bool_decide_eq_false_2; [done|].
  rewrite !elem_of_cons, elem_of_nil. intros [?|[?|[?|[?|[]]]]]; congruence.
Qed.

Lemma pin_coord_eq (chips : list chip) (c p : Z) (ch : chip) :
  chip_at chips c = Some ch -> (1 <= p)%Z ->
  pin_coord chips c p =
    let chipX := OFF_X + chip_x ch * CELL in
    let chipY := OFF_Y + 6 * CELL in
    let N := pins_per_row (chip_type ch) in
    if (p <=? N)%Z
    then {| x := chipX + (inject_Z p - 1) * CELL + 5; y := chipY + 4.5 * CELL |}
    else {| x := chipX + (inject_Z (N * 2) - inject_Z p) * CELL + 5;
            y := chipY - 0.5 * CELL |}.
Proof.
  intros Hch Hp. unfold pin_coord, getCoords, getCoords_try. simpl.
  rewrite Hch, pins_per_row_code.
  destruct p as [|p|p]; try lia.
  by destruct (Z.pos p <=? _)%Z.
Qed.

(** C6: for a chip that exists, of a type with [N] pins per row (8 for
    7476, 74153, 74139 and 7485, otherwise 7), and a pin [p] in
    [1..2N]: a pin [p <= N] lies on the bottom row at the horizontal
    offset [(p - 1) * CELL + 5] from the chip, which grows with [p];
    a pin [p > N] lies on the top row at the offset
    [(2N - p) * CELL + 5], which shrinks as [p] grows.  The bottom row
    is the one with the larger [y], as [y] grows downwards.  The chip
    stands at an integer grid position of magnitude at most 2^40, where
    the doubles of the code are exact. *)
Theorem pin_rows (chips : list chip) (c p : Z) (ch : chip) :
  chip_at chips c = Some ch ->
  grid_position ch ->
  let N := pins_per_row (chip_type ch) in
  let chipX := OFF_X + chip_x ch * CELL in
  let bottom := OFF_Y + 6 * CELL + 4.5 * CELL in
  let top := OFF_Y + 6 * CELL - 0.5 * CELL in
  (1 <= p <= 2 * N)%Z ->
  ((p <= N)%Z ->
     x (pin_coord chips c p) = chipX + (inject_Z p - 1) * CELL + 5 /\
     y (pin_coord chips c p) = bottom /\
     forall q, (p < q <= N)%Z -> x (pin_coord chips c p) < x (pin_coord chips c q)) /\
  ((N < p)%Z ->
     x (pin_coord chips c p) = chipX + (inject_Z (N * 2) - inject_Z p) * CELL + 5 /\
     y (pin_coord chips c p) = top /\
     forall q, (p < q <= 2 * N)%Z -> x (pin_coord chips c q) < x (pin_coord chips c p)) /\
  top < bottom.
Proof.
  intros Hch _ N chipX bottom top Hp.
  split; [|split].
  - intros HpN. rewrite (pin_coord_eq _ _ _ _ Hch) by lia. cbv zeta. fold N.
    rewrite (proj2 (Z.leb_le p N)) by done. simpl. repeat split.
    intros q Hq. rewrite (pin_coord_eq _ _ _ _ Hch) by lia. cbv zeta. fold N.
    rewrite (proj2 (Z.leb_le q N)) by lia. simpl.
    assert (inject_Z p < inject_Z q) by (rewrite <- Zlt_Qlt; lia).
    unfold CELL. lra.
  - intros HpN. rewrite (pin_coord_eq _ _ _ _ Hch) by lia. cbv zeta. fold N.
    rewrite (proj2 (Z.leb_gt p N)) by done. simpl. repeat split.
    intros q Hq. rewrite (pin_coord_eq _ _ _ _ Hch) by lia. cbv zeta. fold N.
    rewrite (proj2 (Z.leb_gt q N)) by lia. simpl.
    assert (inject_Z p < inject_Z q) by (rewrite <- Zlt_Qlt; lia).
    unfold CELL. lra.
  - reflexivity.
Qed.

Lemma pin_rows_witness :
  let chips := chips Recipes.mux_74153 in
  ((9 <= 8)%Z ->
     x (pin_coord chips 0 9) = OFF_X + 25 * CELL + (inject_Z 9 - 1) * CELL + 5 /\
     y (pin_coord chips 0 9) = OFF_Y + 6 * CELL + 4.5 * CELL /\
     forall q, (9 < q <= 8)%Z -> x (pin_coord chips 0 9) < x (pin_coord chips 0 q)) /\
  ((8 < 9)%Z ->
     x (pin_coord chips 0 9) = OFF_X + 25 * CELL + (inject_Z (8 * 2) - inject_Z 9) * CELL + 5 /\
     y (pin_coord chips 0 9) = OFF_Y + 6 * CELL - 0.5 * CELL /\
     forall q, (9 < q <= 2 * 8)%Z -> x (pin_coord chips 0 q) < x (pin_coord chips 0 9)) /\
  OFF_Y + 6 * CELL - 0.5 * CELL < OFF_Y + 6 * CELL + 4.5 * CELL.
Proof.
  apply (pin_rows (chips Recipes.mux_74153) 0 9 (Chip "u1" "74153" 25)).
  - reflexivity.
  - exists 25%Z. split; [reflexivity | vm_compute; discriminate].
  - vm_compute. split; discriminate.
Defined.

(** ** The wire component *)

Lemma is_zero_true (q : Q) : is_zero q = true <-> q == 0.
Proof. apply Qeq_bool_iff. Qed.

Lemma is_zero_false (q : Q) : is_zero q = false <-> ~ q == 0.
Proof.
  rewrite <- is_zero_true. destruct (is_zero q); split; intros; congruence.
Qed.




(** ** Wires that name a chip that does not exist *)

Lemma rail_x_nonzero (type : string) :
  type = "RAIL_VCC"%string \/ type = "RAIL_GND"%string ->
  is_zero (x (getCoords type None None)) = false.
Proof. by intros [-> | ->]. Qed.

Lemma sw_x_nonzero (s : string) :
  is_zero (x (getCoords "SW" (Some (Tok s)) None)) = false.
Proof.
  unfold getCoords, getCoords_try. simpl.
  generalize (or_zero (parseInt (split "_" s !! 1%nat))). intros n.
  apply is_zero_false. unfold Qeq. simpl. lia.
Qed.

Lemma led_x_nonzero (s : string) :
  is_zero (x (getCoords "LED" (Some (Tok s)) None)) = false.
Proof. reflexivity. Qed.

Lemma pin_x_nonzero (chips : list chip) (v : endpoint) (ch : chip) :
  chip_at chips (or_zero (field_c v)) = Some ch ->
  (exists z, chip_x ch = inject_Z z) ->
  is_zero (x (getCoords "PIN" (Some v) (Some chips))) = false.
Proof.
  intros Hch [z Hz]. unfold getCoords, getCoords_try. simpl. rewrite Hch.
  rewrite Hz. apply is_zero_false.
  generalize (match or_zero (field_p v) with 0%Z => 1%Z | p => p end).
  intros pin.
  destruct (is_16pin (chip_type ch)); destruct (pin <=? _)%Z;
    unfold Qeq; simpl; lia.
Qed.

Lemma pin_x_zero (chips : list chip) (v : endpoint) :
  chip_at chips (or_zero (field_c v)) = None ->
  getCoords "PIN" (Some v) (Some chips) = {| x := 0; y := 0 |}.
Proof.
  intros Hch. unfold getCoords, getCoords_try. simpl. by rewrite Hch.
Qed.

Lemma chip_at_Forall (P : chip -> Prop) (chips : list chip) (c : Z) (ch : chip) :
  Forall P chips -> chip_at chips c = Some ch -> P ch.
Proof.
  intros Hall. unfold chip_at. destruct (0 <=? c)%Z; [|done].
  intros Hl. by eapply Forall_lookup_1.
Qed.

Section WireEnds.

Variables (a : circuit) (w : wire).

Lemma wire_p1_zero :
  no_such_chip (chips a) (pin_chip_s (w_s w)) -> is_zero (x (wire_p1 a w)) = true.
Proof.
  unfold pin_chip_s, wire_p1.
  destruct (is_token (w_s w) "VCC"); [done|].
  destruct (is_token (w_s w) "GND"); [done|].
  destruct (token_includes (w_s w) "SW"); [done|]. simpl.
  intros Hno. by rewrite pin_x_zero.
Qed.

Lemma wire_p2_zero :
  no_such_chip (chips a) (pin_chip_e (w_e w)) -> is_zero (x (wire_p2 a w)) = true.
Proof.
  unfold pin_chip_e, wire_p2.
  destruct (token_includes (w_e w) "LED"); [done|]. simpl.
  intros Hno. by rewrite pin_x_zero.
Qed.

Hypothesis on_grid : Forall integer_x (chips a).

Lemma wire_p1_nonzero :
  ~ no_such_chip (chips a) (pin_chip_s (w_s w)) -> is_zero (x (wire_p1 a w)) = false.
Proof.
  unfold pin_chip_s, wire_p1.
  destruct (is_token (w_s w) "VCC"); [done|].
  destruct (is_token (w_s w) "GND"); [done|].
  destruct (token_includes (w_s w) "SW") eqn:Esw.
  - intros _. destruct (w_s w) as [s|]; [apply sw_x_nonzero | done].
  - simpl. destruct (chip_at (chips a) (or_zero (field_c (w_s w)))) as [ch|] eqn:Hch;
      [|by intros []].
    intros _. eapply pin_x_nonzero; [exact Hch|].
    exact (chip_at_Forall _ _ _ _ on_grid Hch).
Qed.

Lemma wire_p2_nonzero :
  ~ no_such_chip (chips a) (pin_chip_e (w_e w)) -> is_zero (x (wire_p2 a w)) = false.
Proof.
  unfold pin_chip_e, wire_p2.
  destruct (token_includes (w_e w) "LED") eqn:Eled.
  - intros _. destruct (w_e w) as [s|]; [apply led_x_nonzero | done].
  - simpl. destruct (chip_at (chips a) (or_zero (field_c (w_e w)))) as [ch|] eqn:Hch;
      [|by intros []].
    intros _. eapply pin_x_nonzero; [exact Hch|].
    exact (chip_at_Forall _ _ _ _ on_grid Hch).
Qed.

End WireEnds.

Lemma no_such_chip_dec (chips : list chip) (oc : option Z) :
  no_such_chip chips oc \/ ~ no_such_chip chips oc.
Proof.
  destruct oc as [c|]; simpl; [|tauto].
  destruct (chip_at chips c); [right; discriminate | by left].
Qed.




(** * Further properties of the catalog *)

Close Scope Q_scope.

(** Half and full adder: the two outputs are the binary digits of the
    sum of the input bits, Sum the low digit and Cout the high one. *)
Theorem adders_add (a b cin : bool) (rest : list jsval) :
  (exists s co : bool,
     evaluate_on Recipes.half_adder ([bit a; bit b] ++ rest) = Some (dense [bit s; bit co]) /\
     Z.b2z s + 2 * Z.b2z co = Z.b2z a + Z.b2z b) /\
  (exists s co : bool,
     evaluate_on Recipes.full_adder ([bit a; bit b; bit cin] ++ rest)
       = Some (dense [bit s; bit co]) /\
     Z.b2z s + 2 * Z.b2z co = Z.b2z a + Z.b2z b + Z.b2z cin).
Proof.
  split.
  - exists (xorb a b), (a && b). by destruct a, b.
  - exists (xorb (xorb a b) cin), (a && b || cin && xorb a b).
    by destruct a, b, cin.
Qed.

(** Half and full subtractor: Diff is the low digit of A - B - Bin and
    the second output is the borrow, so that
    A - B - Bin = Diff - 2 * Borrow. *)
Theorem subtractors_subtract (a b bin : bool) (rest : list jsval) :
  (exists df bo : bool,
     evaluate_on Recipes.half_subtractor ([bit a; bit b] ++ rest)
       = Some (dense [bit df; bit bo]) /\
     Z.b2z a - Z.b2z b = Z.b2z df - 2 * Z.b2z bo) /\
  (exists df bo : bool,
     evaluate_on Recipes.full_subtractor ([bit a; bit b; bit bin] ++ rest)
       = Some (dense [bit df; bit bo]) /\
     Z.b2z a - Z.b2z b - Z.b2z bin = Z.b2z df - 2 * Z.b2z bo).
Proof.
  split.
  - exists (xorb a b), (negb a && b). by destruct a, b.
  - exists (xorb (xorb a b) bin), (negb a && b || negb (xorb a b) && bin).
    by destruct a, b, bin.
Qed.

(** The 2-bit multiplier: the four outputs, P0 the lowest, are the
    binary digits of the product of A = A0 + 2 A1 and B = B0 + 2 B1. *)
Theorem multiplier_multiplies (a0 a1 b0 b1 : bool) (rest : list jsval) :
  exists p0 p1 p2 p3 : bool,
    evaluate_on Recipes.multiplier_2bit ([bit a0; bit a1; bit b0; bit b1] ++ rest)
      = Some (dense [bit p0; bit p1; bit p2; bit p3]) /\
    Z.b2z p0 + 2 * Z.b2z p1 + 4 * Z.b2z p2 + 8 * Z.b2z p3
      = (Z.b2z a0 + 2 * Z.b2z a1) * (Z.b2z b0 + 2 * Z.b2z b1).
Proof.
  exists (a0 && b0), (xorb (a1 && b0) (a0 && b1)),
         (a1 && b1 && negb (a0 && b0)), (a0 && a1 && b0 && b1).
  by destruct a0, a1, b0, b1.
Qed.

(** The code converter: stepping the input number by one, also from 15
    back to 0, changes exactly one of the four output LEDs, and two
    different numbers never give the same output. *)
Theorem gray_one_bit_changes (n m : nat) :
  (n < 16)%nat -> (m < 16)%nat ->
  leds_changed 4 (evaluate_on Recipes.binary_gray (bits4 n))
                 (evaluate_on Recipes.binary_gray (bits4 (S n mod 16))) = 1%nat /\
  (evaluate_on Recipes.binary_gray (bits4 n) = evaluate_on Recipes.binary_gray (bits4 m) ->
   n = m).
Proof.
  intros Hn Hm. split.
  - do 16 (destruct n as [|n]; [vm_compute; reflexivity|]). lia.
  - do 16 (destruct n as [|n];
           [do 16 (destruct m as [|m]; [first [reflexivity | discriminate]|]); lia|]).
    lia.
Qed.

Lemma gray_one_bit_changes_witness :
  leds_changed 4 (evaluate_on Recipes.binary_gray (bits4 7))
                 (evaluate_on Recipes.binary_gray (bits4 (8 mod 16))) = 1%nat /\
  (evaluate_on Recipes.binary_gray (bits4 7) = evaluate_on Recipes.binary_gray (bits4 7) ->
   7%nat = 7%nat).
Proof. apply (gray_one_bit_changes 7 7); lia. Defined.

(** The multiplexer: for every setting of the select switches the
    output is the data input number 2 B + A, whatever the four data
    inputs hold. *)
Theorem mux_selects (a b : bool) (d0 d1 d2 d3 : jsval) (rest : list jsval) :
  evaluate_on Recipes.mux_74153 ([bit a; bit b; d0; d1; d2; d3] ++ rest)
    = Some (dense [nth (Z.to_nat (word2 b a)) [d0; d1; d2; d3] VUndef]).
Proof. by destruct a, b. Qed.

(** The decoder: with the enable input at 0, exactly the output number
    2 B + A is [true] and the other three are [false]; with the enable
    input at 1 the four outputs are the number 1, so all four LEDs are
    lit. *)
Theorem decoder_one_hot (a b : bool) (rest : list jsval) :
  evaluate_on Recipes.decoder_74139 ([bit a; bit b; bit false] ++ rest)
    = Some (dense [VBool (word2 b a =? 0); VBool (word2 b a =? 1);
                   VBool (word2 b a =? 2); VBool (word2 b a =? 3)]) /\
  evaluate_on Recipes.decoder_74139 ([bit a; bit b; bit true] ++ rest)
    = Some (dense [VNum 1; VNum 1; VNum 1; VNum 1]).
Proof. by destruct a, b. Qed.

(** The comparator: the three outputs are the comparisons of the words
    A = A1 A0 and B = B1 B0, the first input of each word being its high
    bit, and exactly one of the three LEDs is lit. *)
Theorem comparator_compares (a1 a0 b1 b0 : bool) (rest : list jsval) :
  let out := evaluate_on Recipes.comparator_7485 ([bit a1; bit a0; bit b1; bit b0] ++ rest) in
  out = Some (dense [VBool (word2 b1 b0 <? word2 a1 a0);
                     VBool (word2 a1 a0 =? word2 b1 b0);
                     VBool (word2 a1 a0 <? word2 b1 b0)]) /\
  length (filter (fun i => lights out i = true) (seq 0 3)) = 1%nat.
Proof. by destruct a1, a0, b1, b0. Qed.

(** The gate circuits: the LED of each NAND-only and NOR-only circuit
    shows the function in its name, the same as the 7408 and 7432
    outputs of the two-gate circuit. *)
Theorem universal_gates (a b : bool) (rest : list jsval) :
  lights (evaluate_on Recipes.not_using_nand ([bit a] ++ rest)) 0 = negb a /\
  lights (evaluate_on Recipes.not_using_nor ([bit a] ++ rest)) 0 = negb a /\
  lights (evaluate_on Recipes.and_using_nand ([bit a; bit b] ++ rest)) 0 = a && b /\
  lights (evaluate_on Recipes.and_using_nor ([bit a; bit b] ++ rest)) 0 = a && b /\
  lights (evaluate_on Recipes.or_using_nand ([bit a; bit b] ++ rest)) 0 = a || b /\
  lights (evaluate_on Recipes.or_using_nor ([bit a; bit b] ++ rest)) 0 = a || b /\
  lights (evaluate_on Recipes.basic_gates ([bit a; bit b] ++ rest)) 0 = a && b /\
  lights (evaluate_on Recipes.basic_gates ([bit a; bit b] ++ rest)) 1 = a || b.
Proof. by destruct a, b. Qed.

(** The D flip-flop: CLR at 0 gives (Q, /Q) = (0, 1) whatever the other
    inputs are, PRE included; with CLR at 1, PRE at 0 gives (1, 0)
    whatever D and CLK are. *)
Theorem d_ff_clear_and_preset (D CLK PRE : jsval) (rest : list jsval) :
  evaluate_on Recipes.d_ff_7474 ([D; CLK; PRE; bit false] ++ rest)
    = Some (dense [VNum 0; VNum 1]) /\
  evaluate_on Recipes.d_ff_7474 ([D; CLK; bit false; bit true] ++ rest)
    = Some (dense [VNum 1; VNum 0]).
Proof. done. Qed.

(** The JK flip-flop takes no account of CLK: (J, K) = (1, 0) gives
    (Q, /Q) = (1, 0), (0, 1) and (0, 0) both give (0, 1), and (1, 1)
    gives (1, 1). *)
Theorem jk_ff_table (CLK : jsval) (rest : list jsval) :
  evaluate_on Recipes.jk_ff_7476 ([bit true; bit false; CLK] ++ rest)
    = Some (dense [VNum 1; VNum 0]) /\
  evaluate_on Recipes.jk_ff_7476 ([bit false; bit true; CLK] ++ rest)
    = Some (dense [VNum 0; VNum 1]) /\
  evaluate_on Recipes.jk_ff_7476 ([bit false; bit false; CLK] ++ rest)
    = Some (dense [VNum 0; VNum 1]) /\
  evaluate_on Recipes.jk_ff_7476 ([bit true; bit true; CLK] ++ rest)
    = Some (dense [VNum 1; VNum 1]).
Proof. done. Qed.

(** ** What the outputs depend on *)

Ltac read_facts Hag :=
  try pose proof (Hag 0%nat ltac:(simpl; lia)) as R0;
  try pose proof (Hag 1%nat ltac:(simpl; lia)) as R1;
  try pose proof (Hag 2%nat ltac:(simpl; lia)) as R2;
  try pose proof (Hag 3%nat ltac:(simpl; lia)) as R3;
  try pose proof (Hag 4%nat ltac:(simpl; lia)) as R4;
  try pose proof (Hag 5%nat ltac:(simpl; lia)) as R5.

Ltac rewrite_reads :=
  repeat match goal with
         | R : read ?a ?k = read ?b ?k |- _ => rewrite R
         end.

Ltac step_declared H H' :=
  cbv [array_lit eval_list lift2 lift1 land ifte bind ret val lit index alloc];
  repeat first
    [ progress (rewrite ?H, ?H'; cbv beta iota; rewrite_reads)
    | match goal with
      | |- context [if ToBoolean ?c then _ else _] => destruct (ToBoolean c)
      end ].

Ltac reads_declared_tac :=
  let H := fresh "H" in let H' := fresh "H'" in let Hag := fresh "Hag" in
  intros ? ? ? ? ? ? H H' Hag; read_facts Hag; clear Hag;
  step_declared H H'; one_array.

Lemma decoder_reads_declared : reads_declared Recipes.decoder_74139.
Proof.
  eexists; split; [reflexivity|].
  intros h ia arr h' ia' arr' H H' Hag. read_facts Hag. clear Hag.
  cbv [array_set array_map].
  step_declared H H'; [one_array|].
  rewrite !lookup_fresh.
  destruct (array_index _) as [n|]; cbv beta iota;
    rewrite ?insert_fresh, !lookup_fresh;
    rewrite !length_app, <- !app_assoc; simpl; rewrite !Nat.add_1_r;
    (eexists [_; _], 1%nat; split; [reflexivity | split; [reflexivity | by eexists]]).
Qed.

Lemma catalog_reads_declared : Forall (fun kc => reads_declared kc.2) RECIPES.
Proof.
  unfold RECIPES.
  repeat (apply Forall_cons_2; [|]); [.. | apply Forall_nil_2];
    first [ apply decoder_reads_declared
          | eexists; split; [reflexivity | reads_declared_tac] ].
Qed.

Lemma assoc_elem_of {A} (key : string) (v : A) (l : list (string * A)) :
  assoc key l = Some v -> (key, v) ∈ l.
Proof.
  induction l as [|[k' v'] l IH]; [done|].
  simpl. destruct (String.eqb key k') eqn:E.
  - intros [= ->]. apply String.eqb_eq in E as ->. left.
  - intros Hl. right. by apply IH.
Qed.

Lemma agree_upto_take (n : nat) (l l' : list jsval) :
  take n l = take n l' -> agree_upto n (dense l) (dense l').
Proof.
  intros Ht k Hk. unfold read, dense. rewrite !list_lookup_fmap.
  by rewrite <- (lookup_take_lt l n k), <- (lookup_take_lt l' n k), Ht by done.
Qed.

(** The output of a catalog circuit depends on the declared inputs
    only: two vectors with the same entries at the positions of the
    declared inputs give the same output, whatever the further switches
    hold and however long the vectors are. *)
Theorem undeclared_switches_ignored (key : string) (c : circuit) (l l' : list jsval) :
  assoc key RECIPES = Some c ->
  take (length (inputs c)) l = take (length (inputs c)) l' ->
  is_Some (evaluate_on c l) /\ evaluate_on c l = evaluate_on c l'.
Proof.
  intros Hk Ht.
  pose proof catalog_reads_declared as Hall. rewrite Forall_forall in Hall.
  destruct (Hall _ (assoc_elem_of _ _ _ Hk)) as (f & Hf & Hlocal). simpl in Hf, Hlocal.
  destruct (Hlocal [dense l] 0%nat (dense l) [dense l'] 0%nat (dense l') eq_refl eq_refl
              (agree_upto_take _ _ _ Ht))
    as (ext & k & Hrun & Hrun' & [out Hout]).
  unfold evaluate_on.
  rewrite (evaluate_well_behaved _ _ _ _ _ _ Hf Hrun).
  rewrite (evaluate_well_behaved _ _ _ _ _ _ Hf Hrun').
  rewrite !lookup_app_r by (simpl; lia). simpl.
  rewrite !Nat.add_sub. by rewrite Hout.
Qed.

Lemma undeclared_switches_ignored_witness :
  is_Some (evaluate_on Recipes.half_adder [VNum 1; VNum 0; VNum 1; VNum 1]) /\
  evaluate_on Recipes.half_adder [VNum 1; VNum 0; VNum 1; VNum 1]
    = evaluate_on Recipes.half_adder [VNum 1; VNum 0].
Proof.
  apply (undeclared_switches_ignored "half_adder" Recipes.half_adder
           [VNum 1; VNum 0; VNum 1; VNum 1] [VNum 1; VNum 0]); reflexivity.
Defined.

(** In whatever store and at whatever address the input array lives,
    [evaluate] on a catalog circuit returns an array with the contents
    that [evaluate_on] gives for the vector. *)
Theorem catalog_result_store_independent (key : string) (c : circuit)
    (h : heap) (ia : ref) (l : list jsval) :
  assoc key RECIPES = Some c ->
  h !! ia = Some (dense l) ->
  exists r h', evaluate c ia h = (Normal r, h') /\ h' !! r = evaluate_on c l.
Proof.
  intros Hk Hia. apply evaluate_in_any_store; [by eapply catalog_lookup | done].
Qed.

Lemma catalog_result_store_independent_witness :
  exists r h',
    evaluate Recipes.full_adder 2%nat [[]; dense [VNum 7]; dense [VNum 1; VNum 1; VNum 0]]
      = (Normal r, h') /\
    h' !! r = evaluate_on Recipes.full_adder [VNum 1; VNum 1; VNum 0].
Proof.
  apply (catalog_result_store_independent "full_adder" Recipes.full_adder
           [[]; dense [VNum 7]; dense [VNum 1; VNum 1; VNum 0]] 2%nat
           [VNum 1; VNum 1; VNum 0]); reflexivity.
Defined.

(** ** The outputs on switch vectors *)

Lemma elem_of_bool_vectors (bs : list bool) : bs ∈ bool_vectors (length bs).
Proof.
  induction bs as [|b bs IH]; simpl; [by left|].
  apply elem_of_app. destruct b; [right | left]; by apply list_elem_of_fmap_2.
Qed.

Lemma catalog_outputs_checked :
  forallb (fun kc => forallb (outputs_well_formed kc.2) (bool_vectors 6)) RECIPES = true.
Proof. vm_compute. reflexivity. Qed.

(** For every catalog circuit and every setting of the six switches,
    [evaluate] returns an array without holes that has exactly one
    entry for each declared output, each entry a boolean, 0 or 1: every
    LED has a definite state. *)
Theorem catalog_outputs_well_formed (key : string) (c : circuit) (bs : list bool) :
  assoc key RECIPES = Some c ->
  length bs = 6%nat ->
  exists out,
    evaluate_on c (bit <$> bs) = Some (dense out) /\
    length out = length (outputs c) /\
    Forall (fun v => exists b, v = VBool b \/ v = bit b) out.
Proof.
  intros Hk Hlen.
  pose proof catalog_outputs_checked as Hall. rewrite forallb_forall in Hall.
  assert (Hc := Hall (key, c) (proj1 (list_elem_of_In _ _) (assoc_elem_of _ _ _ Hk))).
  rewrite forallb_forall in Hc.
  assert (Hok : outputs_well_formed c bs = true).
  { apply (Hc bs). rewrite <- Hlen. apply list_elem_of_In, elem_of_bool_vectors. }
  clear Hall Hc. unfold outputs_well_formed in Hok.
  destruct (evaluate_on c (bit <$> bs)) as [arr|]; [|done].
  apply andb_true_iff in Hok as [Hl Hs]. apply Nat.eqb_eq in Hl.
  revert Hl Hs. generalize (length (outputs c)). clear.
  induction arr as [|s arr IH]; intros n Hl Hs.
  - exists []. by repeat split.
  - simpl in Hs. apply andb_true_iff in Hs as [Hv Hs].
    destruct s as [v|]; [|done]. destruct n as [|n]; [done|].
    destruct (IH n) as (out & [= ->] & Hlen & Hall); [by injection Hl | done|].
    exists (v :: out). repeat split; [simpl; by rewrite Hlen|].
    constructor; [|done].
    destruct v as [|b|z|]; try done.
    + exists b. by left.
    + simpl in Hv. apply orb_true_iff in Hv as [Hz|Hz]; apply Z.eqb_eq in Hz as ->.
      * exists false. by right.
      * exists true. by right.
Qed.

Lemma catalog_outputs_well_formed_witness :
  exists out,
    evaluate_on Recipes.decoder_74139 (bit <$> [true; true; false; false; false; false])
      = Some (dense out) /\
    length out = length (outputs Recipes.decoder_74139) /\
    Forall (fun v => exists b, v = VBool b \/ v = bit b) out.
Proof.
  apply (catalog_outputs_well_formed "decoder_74139" Recipes.decoder_74139
           [true; true; false; false; false; false]); reflexivity.
Defined.

(** ** The switch handler *)

Lemma spread_dense (l : list jsval) :
  read (dense l) <$> seq 0 (length (dense l)) = l.
Proof.
  unfold dense. rewrite length_fmap.
  apply list_eq. intros k. rewrite list_lookup_fmap.
  destruct (l !! k) as [v|] eqn:E.
  - rewrite lookup_seq_lt by (by eapply lookup_lt_Some). simpl.
    unfold read. by rewrite list_lookup_fmap, E.
  - rewrite lookup_seq_ge; [done|]. by apply lookup_ge_None.
Qed.

Lemma store_at_dense (l : list jsval) (i : nat) (v : jsval) :
  (i < length l)%nat -> store_at (dense l) i v = dense (<[i := v]> l).
Proof.
  intros Hi. unfold store_at, dense. rewrite length_fmap.
  rewrite (proj2 (Nat.ltb_lt _ _) Hi). by rewrite list_fmap_insert.
Qed.

Lemma toggle_run (h : heap) (ia : ref) (l : list jsval) (i : nat) :
  h !! ia = Some (dense l) ->
  (i < length l)%nat -> Z.of_nat (length l) < 2 ^ 32 ->
  toggle ia i h = (Normal (length h), h ++ [dense (alter flipped i l)]).
Proof.
  intros Hia Hi Hlen.
  destruct (lookup_lt_is_Some_2 l i Hi) as [v Hv].
  unfold toggle, spread, cond, bind, alloc, index, array_set, ret, lit.
  rewrite Hia, spread_dense. rewrite !lookup_fresh.
  assert (Hidx : array_index (VNum (Z.of_nat i)) = Some i).
  { unfold array_index.
    rewrite (proj2 (Z.leb_le 0 _)), (proj2 (Z.ltb_lt _ _)) by lia.
    simpl. by rewrite Nat2Z.id. }
  assert (Hread : read (dense l) i = v).
  { unfold read, dense. by rewrite list_lookup_fmap, Hv. }
  rewrite Hread.
  assert (Halter : alter flipped i l = <[i := flipped v]> l).
  { apply list_eq. intros k. destruct (decide (k = i)) as [->|Hne].
    - rewrite list_lookup_alter_eq, Hv. by rewrite list_lookup_insert_eq.
    - by rewrite list_lookup_alter_ne, list_lookup_insert_ne. }
  rewrite Halter. unfold flipped.
  destruct (ToBoolean v); unfold ret; cbv beta iota;
    rewrite !lookup_fresh, Hidx, insert_fresh; by rewrite store_at_dense.
Qed.

Lemma read_spread (arr : jsarray) (k : nat) :
  read (dense (read arr <$> seq 0 (length arr))) k = read arr k.
Proof.
  unfold read at 1, dense. rewrite !list_lookup_fmap.
  destruct (decide (k < length arr)%nat) as [Hk|Hk].
  - by rewrite lookup_seq_lt.
  - rewrite lookup_seq_ge by lia. simpl. unfold read.
    by rewrite (lookup_ge_None_2 arr k) by lia.
Qed.

Lemma length_spread (arr : jsarray) :
  length (dense (read arr <$> seq 0 (length arr))) = length arr.
Proof. unfold dense. by rewrite !length_fmap, length_seq. Qed.

Lemma length_store_at (a : jsarray) (i : nat) (v : jsval) :
  length (store_at a i v) = (length a `max` S i)%nat.
Proof.
  unfold store_at. destruct (Nat.ltb_spec i (length a)).
  - rewrite length_insert. lia.
  - rewrite !length_app, length_replicate. simpl. lia.
Qed.

Lemma read_store_at_eq (a : jsarray) (i : nat) (v : jsval) :
  read (store_at a i v) i = v.
Proof.
  unfold read, store_at. destruct (Nat.ltb_spec i (length a)).
  - by rewrite list_lookup_insert_eq.
  - rewrite lookup_app_r by lia. rewrite lookup_app_r by (rewrite length_replicate; lia).
    rewrite length_replicate. by rewrite Nat.sub_diag.
Qed.

Lemma read_store_at_ne (a : jsarray) (i k : nat) (v : jsval) :
  k <> i -> read (store_at a i v) k = read a k.
Proof.
  intros Hne. unfold read, store_at. destruct (Nat.ltb_spec i (length a)).
  - by rewrite list_lookup_insert_ne.
  - destruct (decide (k < length a)%nat) as [Hk|Hk].
    + by rewrite lookup_app_l.
    + rewrite (lookup_ge_None_2 a k) by lia. rewrite lookup_app_r by lia.
      destruct (decide (k - length a < i - length a)%nat) as [Hin|Hout].
      * rewrite lookup_app_l by (rewrite length_replicate; lia).
        by rewrite lookup_replicate_2.
      * rewrite lookup_app_r by (rewrite length_replicate; lia).
        rewrite length_replicate.
        destruct (k - length a - (i - length a))%nat as [|j] eqn:E; [lia|].
        done.
Qed.

Lemma toggle_run_any (h : heap) (ia : ref) (arr : jsarray) (i : nat) :
  h !! ia = Some arr ->
  Z.of_nat i < 2 ^ 32 - 1 ->
  toggle ia i h =
    (Normal (length h),
     h ++ [store_at (dense (read arr <$> seq 0 (length arr))) i (flipped (read arr i))]).
Proof.
  intros Hia Hi.
  unfold toggle, spread, cond, bind, alloc, index, array_set, ret, lit.
  rewrite Hia. rewrite !lookup_fresh.
  assert (Hidx : array_index (VNum (Z.of_nat i)) = Some i).
  { unfold array_index.
    rewrite (proj2 (Z.leb_le 0 _)), (proj2 (Z.ltb_lt _ _)) by lia.
    simpl. by rewrite Nat2Z.id. }
  rewrite read_spread. unfold flipped.
  destruct (ToBoolean (read arr i)); unfold ret; cbv beta iota;
    by rewrite !lookup_fresh, Hidx, insert_fresh.
Qed.

(** Clicking switch [i], for [i] an array index, does not write to the
    current input array: it returns a new array that reads 0 at [i] if
    the old array read truthy there and 1 otherwise, and reads as the
    old array everywhere else.  The new array has the length of the
    old one when [i] lies inside it; when [i] lies past the end it has
    length [i + 1], the entries in between being holes. *)
Theorem toggle_copies_and_flips (h : heap) (ia : ref) (arr : jsarray) (i : nat) :
  h !! ia = Some arr ->
  Z.of_nat i < 2 ^ 32 - 1 ->
  exists r h' arr',
    toggle ia i h = (Normal r, h') /\
    h !! r = None /\
    (forall a v, h !! a = Some v -> h' !! a = Some v) /\
    h' !! r = Some arr' /\
    read arr' i = flipped (read arr i) /\
    (forall k, k <> i -> read arr' k = read arr k) /\
    length arr' = (length arr `max` S i)%nat /\
    (forall k, (length arr <= k < i)%nat -> arr' !! k = Some None).
Proof.
  intros Hia Hi.
  exists (length h), (h ++ [store_at (dense (read arr <$> seq 0 (length arr))) i
                                       (flipped (read arr i))]),
         (store_at (dense (read arr <$> seq 0 (length arr))) i (flipped (read arr i))).
  split; [by apply toggle_run_any|].
  split; [|split; [|split; [|split; [|split; [|split]]]]].
  - by apply lookup_ge_None_2.
  - intros a v Ha. by apply lookup_app_l_Some.
  - apply lookup_fresh.
  - apply read_store_at_eq.
  - intros k Hk. by rewrite read_store_at_ne, read_spread.
  - by rewrite length_store_at, length_spread.
  - intros k Hk. unfold store_at. rewrite length_spread.
    rewrite (proj2 (Nat.ltb_ge _ _)) by lia.
    rewrite lookup_app_r by (rewrite length_spread; lia). rewrite length_spread.
    rewrite lookup_app_l by (rewrite length_replicate; lia).
    apply lookup_replicate_2. lia.
Qed.

Lemma toggle_copies_and_flips_witness :
  exists r h' arr',
    toggle 0%nat 8%nat [dense [VNum 0; VNum 1; VNum 0; VNum 0; VNum 0; VNum 0]]
      = (Normal r, h') /\
    [dense [VNum 0; VNum 1; VNum 0; VNum 0; VNum 0; VNum 0]] !! r = None /\
    (forall a v, [dense [VNum 0; VNum 1; VNum 0; VNum 0; VNum 0; VNum 0]] !! a = Some v ->
                 h' !! a = Some v) /\
    h' !! r = Some arr' /\
    read arr' 8%nat
      = flipped (read (dense [VNum 0; VNum 1; VNum 0; VNum 0; VNum 0; VNum 0]) 8%nat) /\
    (forall k, k <> 8%nat ->
       read arr' k = read (dense [VNum 0; VNum 1; VNum 0; VNum 0; VNum 0; VNum 0]) k) /\
    length arr'
      = (length (dense [VNum 0; VNum 1; VNum 0; VNum 0; VNum 0; VNum 0]) `max` 9)%nat /\
    (forall k, (length (dense [VNum 0; VNum 1; VNum 0; VNum 0; VNum 0; VNum 0]) <= k < 8)%nat ->
       arr' !! k = Some None).
Proof.
  apply (toggle_copies_and_flips
           [dense [VNum 0; VNum 1; VNum 0; VNum 0; VNum 0; VNum 0]] 0%nat
           (dense [VNum 0; VNum 1; VNum 0; VNum 0; VNum 0; VNum 0]) 8%nat).
  - reflexivity.
  - vm_compute. reflexivity.
Defined.

Lemma alter_flipped_bits (bs : list bool) (i : nat) :
  alter flipped i (bit <$> bs) = bit <$> alter negb i bs.
Proof.
  symmetry. apply list_fmap_alter.
  apply Forall_forall. by intros [] _.
Qed.

(** On a vector of switch levels, clicking switch [i] gives the vector
    with level [i] inverted, so a vector of 0s and 1s stays one of the
    same length; clicking the same switch again gives an array with
    the contents of the first. *)
Theorem toggle_twice_restores (h : heap) (ia : ref) (bs : list bool) (i : nat) :
  h !! ia = Some (dense (bit <$> bs)) ->
  (i < length bs)%nat -> Z.of_nat (length bs) < 2 ^ 32 ->
  exists r1 h1 r2 h2,
    toggle ia i h = (Normal r1, h1) /\
    h1 !! r1 = Some (dense (bit <$> alter negb i bs)) /\
    toggle r1 i h1 = (Normal r2, h2) /\
    h2 !! r2 = Some (dense (bit <$> bs)) /\
    h2 !! ia = Some (dense (bit <$> bs)).
Proof.
  intros Hia Hi Hlen.
  assert (H1 := toggle_run h ia (bit <$> bs) i Hia).
  rewrite length_fmap, alter_flipped_bits in H1. specialize (H1 Hi Hlen).
  set (h1 := h ++ [dense (bit <$> alter negb i bs)]) in *.
  assert (Hr1 : h1 !! length h = Some (dense (bit <$> alter negb i bs)))
    by apply lookup_fresh.
  assert (H2 := toggle_run h1 (length h) (bit <$> alter negb i bs) i Hr1).
  rewrite length_fmap, length_alter, alter_flipped_bits in H2. specialize (H2 Hi Hlen).
  assert (Hback : alter negb i (alter negb i bs) = bs).
  { rewrite list_alter_alter_eq. apply list_alter_id. by intros []. }
  rewrite Hback in H2.
  exists (length h), h1, (length h1), (h1 ++ [dense (bit <$> bs)]).
  repeat split; try done.
  - apply lookup_fresh.
  - by do 2 apply lookup_app_l_Some.
Qed.

Lemma toggle_twice_restores_witness :
  exists r1 h1 r2 h2,
    toggle 0%nat 2%nat [dense (bit <$> [false; true; false; false; false; false])]
      = (Normal r1, h1) /\
    h1 !! r1 = Some (dense (bit <$> alter negb 2%nat [false; true; false; false; false; false])) /\
    toggle r1 2%nat h1 = (Normal r2, h2) /\
    h2 !! r2 = Some (dense (bit <$> [false; true; false; false; false; false])) /\
    h2 !! 0%nat = Some (dense (bit <$> [false; true; false; false; false; false])).
Proof.
  apply (toggle_twice_restores
           [dense (bit <$> [false; true; false; false; false; false])] 0%nat
           [false; true; false; false; false; false] 2%nat).
  - reflexivity.
  - simpl. lia.
  - simpl. lia.
Defined.

(** ** The search handler *)

Lemma prefix_includes (sub s : string) : String.prefix sub s = true -> includes sub s = true.
Proof.
  intros H. destruct s as [|a s].
  - change (includes sub "") with (String.prefix sub "" || false). by rewrite H.
  - change (includes sub (String a s))
      with (String.prefix sub (String a s) || includes sub s). by rewrite H.
Qed.

Lemma includes_tail (c : ascii) (sub s : string) :
  includes (String c sub) s = true -> includes sub s = true.
Proof.
  induction s as [|a s IH].
  - simpl. by destruct sub.
  - intros H. change (includes sub (String a s))
      with (String.prefix sub (String a s) || includes sub s).
    change (includes (String c sub) (String a s))
      with (String.prefix (String c sub) (String a s) || includes (String c sub) s) in H.
    apply orb_true_iff in H as [H|H].
    + simpl in H. destruct (Ascii.ascii_dec c a); [|done].
      rewrite (prefix_includes _ _ H). apply orb_true_r.
    + rewrite (IH H). apply orb_true_r.
Qed.

Ltac split_chain :=
  repeat match goal with
         | |- context [if ?c then _ else _] => destruct c eqn:?
         end.

(** The search loads a catalog entry exactly when a keyword of the
    chain matches, and then resets the six switches to 0; the generator
    is asked only for a query that is not blank and matches no keyword;
    a query that is empty after trimming does nothing. *)
Theorem handleSearch_outcomes (search : string) :
  let q := toLowerCase (trim search) in
  match handleSearch search with
  | NoSearch => q = ""%string
  | Loaded c ins =>
      q <> ""%string /\
      (exists key, search_key q = Some key /\ assoc key RECIPES = Some c) /\
      ins = [VNum 0; VNum 0; VNum 0; VNum 0; VNum 0; VNum 0]
  | AskGenerator q' => q' = q /\ q <> ""%string /\ search_key q = None
  end.
Proof.
  intros q. unfold handleSearch. fold q.
  destruct (String.eqb_spec q "") as [->|Hq]; [done|].
  destruct (search_key q) as [key|] eqn:Hkey; [|done].
  assert (Hin : is_Some (assoc key RECIPES)).
  { revert Hkey. unfold search_key. split_chain; intros [= <-]; by eexists. }
  destruct Hin as [c Hc]. rewrite Hc. split; [done|]. split; [|done]. by exists key.
Qed.

(** Of the nineteen catalog entries the search chain can yield all but
    two: a query that contains "nand" also contains "and", and one that
    contains "nor" also contains "or", so the tests for
    [or_using_nand] and [and_using_nor] are never reached with a chance
    to succeed. *)
Theorem search_reaches_all_but_two (key : string) :
  (exists q, search_key q = Some key) <->
  is_Some (assoc key RECIPES) /\ key <> "or_using_nand"%string /\ key <> "and_using_nor"%string.
Proof.
  split.
  - intros [q Hkey]. revert Hkey. unfold search_key.
    destruct (includes "nand" q) eqn:Enand.
    + rewrite (includes_tail _ _ _ Enand : includes "and" q = true).
      split_chain; intros [= <-]; (split; [by eexists | split; discriminate]).
    + destruct (includes "nor" q) eqn:Enor.
      * rewrite (includes_tail _ _ _ Enor : includes "or" q = true).
        split_chain; intros [= <-]; (split; [by eexists | split; discriminate]).
      * split_chain; intros [= <-]; (split; [by eexists | split; discriminate]).
  - intros ([c Hc] & Hn1 & Hn2). revert Hc. unfold RECIPES, assoc.
    repeat match goal with
           | |- context [String.eqb key ?k] => destruct (String.eqb_spec key k) as [->|?]
           end; try done; intros _.
    + by exists "gate"%string.
    + by exists "nand not"%string.
    + by exists "nand"%string.
    + by exists "nor not"%string.
    + by exists "nor"%string.
    + by exists "add half"%string.
    + by exists "add full"%string.
    + by exists "sub half"%string.
    + by exists "sub full"%string.
    + by exists "mul"%string.
    + by exists "gray"%string.
    + by exists "mux"%string.
    + by exists "decod"%string.
    + by exists "compar"%string.
    + by exists "d flip"%string.
    + by exists "jk"%string.
    + by exists "counter"%string.
Qed.

Lemma toLowerCase_empty (s : string) : toLowerCase s = ""%string <-> s = ""%string.
Proof. by destruct s. Qed.

Lemma skip_spaces_cases (s : string) :
  (skip_spaces s = ""%string /\ Forall (fun c => is_space c = true) (chars s)) \/
  (exists c t, skip_spaces s = String c t /\ is_space c = false /\
               ~ Forall (fun c => is_space c = true) (chars s)).
Proof.
  induction s as [|a s IH]; [left; by split|].
  simpl. destruct (is_space a) eqn:Ea.
  - destruct IH as [[-> Hall]|(c & t & -> & Hc & Hn)].
    + left. split; [done|]. by constructor.
    + right. exists c, t. repeat split; try done.
      intros Hall. apply Hn. by inversion Hall.
  - right. exists a, s. repeat split; try done.
    intros Hall. inversion Hall. congruence.
Qed.

Lemma trim_end_nonempty (c : ascii) (t : string) :
  is_space c = false -> trim_end (String c t) <> ""%string.
Proof. intros Hc. simpl. destruct (trim_end t); by rewrite ?Hc. Qed.

(** For a text of ASCII characters, on which the [trim] of the model
    is the built-in one, the search does nothing exactly when the text
    of the search box consists of white space only (the empty text
    included). *)
Theorem blank_search_ignored (search : string) :
  Forall is_ascii (chars search) ->
  (handleSearch search = NoSearch <-> Forall (fun c => is_space c = true) (chars search)).
Proof.
  intros _.
  assert (Hblank : toLowerCase (trim search) = ""%string
                   <-> Forall (fun c => is_space c = true) (chars search)).
  { rewrite toLowerCase_empty. unfold trim.
    destruct (skip_spaces_cases search) as [[-> Hall]|(c & t & -> & Hc & Hn)].
    - by split.
    - split; [|done]. intros Ht. by destruct (trim_end_nonempty c t Hc). }
  rewrite <- Hblank. unfold handleSearch.
  destruct (String.eqb_spec (toLowerCase (trim search)) "") as [Hq|Hq]; [done|].
  split; [|done].
  destruct (search_key _) as [key|]; [|done]. by destruct (assoc key RECIPES).
Qed.

(** ** Tokens and their indices *)

Lemma digits_decimal (acc : Z) (s : string) :
  Forall is_decimal (chars s) -> digits 10 (Some acc) s = Some (decimal acc s).
Proof.
  revert acc. induction s as [|c s IH]; intros acc Hall; [done|].
  inversion Hall as [|? ? (d & Hd & Hc) Hrest]; subst.
  simpl. rewrite Hc. simpl. by apply IH.
Qed.

Lemma decimal_app (acc : Z) (s t : string) :
  decimal acc (s +:+ t) = decimal (decimal acc s) t.
Proof. revert acc. induction s as [|c s IH]; intros acc; [done|]. simpl. apply IH. Qed.

Lemma chars_app (s t : string) : chars (s +:+ t) = chars s ++ chars t.
Proof.
  induction s as [|c s IH]; [done|].
  change (c :: chars (s +:+ t) = c :: (chars s ++ chars t)). by rewrite IH.
Qed.

Lemma string_app_assoc (s t u : string) : (s +:+ t) +:+ u = s +:+ (t +:+ u).
Proof.
  induction s as [|c s IH]; [done|].
  change (String c ((s +:+ t) +:+ u) = String c (s +:+ (t +:+ u))). by rewrite IH.
Qed.

Lemma pretty_N_char_decimal (d : N) :
  (d < 10)%N -> digit_of 10 (pretty_N_char d) = Some (Z.of_N d).
Proof.
  intros Hd.
  assert (d = 0 \/ d = 1 \/ d = 2 \/ d = 3 \/ d = 4 \/ d = 5 \/ d = 6 \/ d = 7 \/
          d = 8 \/ d = 9)%N as Hcases by lia.
  repeat (destruct Hcases as [-> | Hcases]; [reflexivity|]). by subst.
Qed.

Lemma pretty_N_go_append (n : N) (s : string) :
  pretty_N_go n s = pretty_N_go n "" +:+ s.
Proof.
  revert s. induction (N.lt_wf_0 n) as [n _ IH]. intros s.
  destruct (decide (n = 0)%N) as [->|Hn]; [done|].
  rewrite (pretty_N_go_step n s), (pretty_N_go_step n "") by lia.
  rewrite (IH (n `div` 10)%N) by (apply N.div_lt; lia).
  rewrite (IH (n `div` 10)%N ltac:(apply N.div_lt; lia) (String _ "")).
  by rewrite string_app_assoc.
Qed.

Lemma pretty_N_go_decimal (n : N) :
  Forall is_decimal (chars (pretty_N_go n "")) /\
  decimal 0 (pretty_N_go n "") = Z.of_N n.
Proof.
  induction (N.lt_wf_0 n) as [n _ IH].
  destruct (decide (n = 0)%N) as [->|Hn]; [by split|].
  rewrite (pretty_N_go_step n "") by lia. rewrite pretty_N_go_append.
  destruct (IH (n `div` 10)%N ltac:(apply N.div_lt; lia)) as [Hall Hval].
  assert (Hmod : (n `mod` 10 < 10)%N) by (apply N.mod_lt; lia).
  split.
  - rewrite chars_app. apply Forall_app. split; [done|].
    constructor; [|constructor].
    exists (Z.of_N (n `mod` 10)). split; [|by apply pretty_N_char_decimal].
    clear -Hmod. generalize dependent (n `mod` 10)%N. intros m Hm. lia.
  - rewrite decimal_app, Hval. simpl. rewrite pretty_N_char_decimal by done. simpl.
    pose proof (N.div_mod n 10 ltac:(lia)) as Hdm.
    clear -Hdm Hmod. generalize dependent (n `mod` 10)%N.
    generalize dependent (n / 10)%N. intros q m Hm Hdm. lia.
Qed.

Lemma pretty_nat_decimal (n : nat) :
  Forall is_decimal (chars (pretty n)) /\ pretty n <> ""%string /\
  decimal 0 (pretty n) = Z.of_nat n.
Proof.
  unfold pretty, pretty_nat, pretty, pretty_N.
  destruct (decide (N.of_nat n = 0)%N) as [Hz|Hz].
  - assert (n = 0)%nat as -> by lia. split; [|by split].
    constructor; [|constructor]. exists 0. by split.
  - destruct (pretty_N_go_decimal (N.of_nat n)) as [Hall Hval].
    split; [done|]. split; [|lia].
    rewrite pretty_N_go_step by lia. rewrite pretty_N_go_append.
    intros Heq. apply (f_equal chars) in Heq. rewrite chars_app in Heq.
    apply (f_equal length) in Heq. rewrite length_app in Heq. simpl in Heq. lia.
Qed.

Lemma is_decimal_char (c : ascii) :
  is_decimal c ->
  In c ["0"; "1"; "2"; "3"; "4"; "5"; "6"; "7"; "8"; "9"]%char.
Proof.
  intros (d & Hd & Hc).
  destruct c as [[] [] [] [] [] [] [] []]; vm_compute in Hc;
    first [discriminate Hc | (injection Hc as <-; lia) | (simpl; tauto)].
Qed.

Lemma parseInt_decimal (s : string) :
  Forall is_decimal (chars s) -> s <> ""%string ->
  parseInt (Some s) = Some (decimal 0 s).
Proof.
  intros Hall Hne. destruct s as [|c s]; [done|].
  inversion Hall as [|? ? Hc Hrest]; subst.
  apply is_decimal_char in Hc. simpl in Hc.
  destruct s as [|c' s'].
  - repeat (destruct Hc as [<-|Hc]; [reflexivity|]). done.
  - inversion Hrest as [|? ? Hc' Hrest']; subst.
    apply is_decimal_char in Hc'. simpl in Hc'.
    repeat (destruct Hc as [<-|Hc];
      [repeat (destruct Hc' as [<-|Hc'];
         [simpl; rewrite (digits_decimal _ _ Hrest'); simpl;
          by destruct (decimal _ s')|]); done|]).
    done.
Qed.

(** Printing an index in decimal and reading it back with [parseInt]
    gives the index. *)
Theorem parseInt_of_printed_index (n : nat) :
  parseInt (Some (pretty n)) = Some (Z.of_nat n).
Proof.
  destruct (pretty_nat_decimal n) as (Hall & Hne & Hval).
  rewrite parseInt_decimal by done. by rewrite Hval.
Qed.

Lemma split_decimal (s : string) :
  Forall is_decimal (chars s) -> split "_" s = [s].
Proof.
  induction s as [|c s IH]; intros Hall; [done|].
  inversion Hall as [|? ? Hc Hrest]; subst.
  apply is_decimal_char in Hc. simpl in Hc.
  change (split "_" (String c s))
    with (if Ascii.eqb c "_" then EmptyString :: split "_" s
          else match split "_" s with
               | piece :: rest => String c piece :: rest
               | [] => [String c EmptyString]
               end).
  rewrite (IH Hrest).
  repeat (destruct Hc as [<-|Hc]; [reflexivity|]). done.
Qed.

Lemma led_token_index (i : nat) :
  or_zero (parseInt (split "_" (led_token i) !! 1%nat)) = Z.of_nat i.
Proof.
  destruct (pretty_nat_decimal i) as (Hall & Hne & Hval).
  change (led_token i) with (String "L" (String "E" (String "D" (String "_" (pretty i))))).
  change (split "_" (String "L" (String "E" (String "D" (String "_" (pretty i))))))
    with (match
            match
              match "" :: split "_" (pretty i) with
              | piece :: rest => String "D" piece :: rest
              | [] => [String "D" EmptyString]
              end
            with
            | piece :: rest => String "E" piece :: rest
            | [] => [String "E" EmptyString]
            end
          with
          | piece :: rest => String "L" piece :: rest
          | [] => [String "L" EmptyString]
          end).
  rewrite (split_decimal _ Hall). cbn [lookup list_lookup].
  change (["LED"%string; pretty i] !! 1%nat) with (Some (pretty i)).
  rewrite parseInt_decimal by done. by rewrite Hval.
Qed.

(** Every declared output gets its marker: the marker of output [i] is
    never left out, it sits 55 cells right of the board origin and
    [4 + 3 i] cells down, its LED is lit exactly when entry [i] of the
    output array is truthy, and a wire that ends in the token [LED_i]
    ends at the place of that marker. *)
Theorem led_marker_placed (c : circuit) (outs : jsarray) (i : nat) (lbl : string) :
  exists m,
    led_marker c outs i lbl = Some m /\
    led_at m = Coord (OFF_X + 55 * CELL) (OFF_Y + (4 + inject_Z (Z.of_nat i) * 3) * CELL)%Q /\
    led_halo m = ToBoolean (read outs i) /\
    led_fill m = (if ToBoolean (read outs i) then "#ef4444" else "#450a0a")%string /\
    forall s col, wire_p2 c (W s (Tok (led_token i)) col) = led_at m.
Proof.
  assert (Hpos : getCoords "LED" (Some (Tok (led_token i))) (Some (chips c))
                 = Coord (OFF_X + 55 * CELL)
                         (OFF_Y + (4 + inject_Z (Z.of_nat i) * 3) * CELL)%Q).
  { unfold getCoords, getCoords_try. cbn [String.eqb Ascii.eqb Bool.eqb].
    by rewrite led_token_index. }
  assert (Hpos' : getCoords "LED" (Some (Tok (led_token i))) None
                  = Coord (OFF_X + 55 * CELL)
                          (OFF_Y + (4 + inject_Z (Z.of_nat i) * 3) * CELL)%Q).
  { unfold getCoords, getCoords_try. cbn [String.eqb Ascii.eqb Bool.eqb].
    by rewrite led_token_index. }
  unfold led_marker. rewrite Hpos. cbn [x].
  change (Qeq_bool (OFF_X + 55 * CELL) 0) with false. cbv beta iota zeta.
  eexists. split; [reflexivity|]. cbn [led_at led_halo led_fill].
  repeat split.
  intros s col. unfold wire_p2. cbn [w_e token_includes].
  by change (includes "LED" (led_token i)) with true.
Qed.

(** ** The wires and chips of the catalog *)

Lemma catalog_wires_checked :
  forallb (fun kc => forallb (wire_well_formed kc.2) (wires kc.2)) RECIPES = true.
Proof. vm_compute. reflexivity. Qed.

(** Every wire of every catalog circuit is well formed and drawn: it
    starts at a rail, at a switch of a declared input or at a pin, and
    ends at the LED of a declared output or at a pin; each pin is a pin
    of a chip of the circuit, within the 14 or 16 pins of its package;
    the wire is drawn, and the four points of its path lie on the
    board. *)
Theorem catalog_wires_well_formed (key : string) (c : circuit) (w : wire) :
  assoc key RECIPES = Some c ->
  w ∈ wires c ->
  valid_source c (w_s w) = true /\
  valid_end c (w_e w) = true /\
  exists dr, render_wire c w = Some dr /\ forallb on_board (d dr) = true.
Proof.
  intros Hk Hw.
  pose proof catalog_wires_checked as Hall. rewrite forallb_forall in Hall.
  assert (Hc := Hall (key, c) (proj1 (list_elem_of_In _ _) (assoc_elem_of _ _ _ Hk))).
  rewrite forallb_forall in Hc.
  assert (Hok := Hc w (proj1 (list_elem_of_In _ _) Hw)).
  change ((key, c).2) with c in Hok. unfold wire_well_formed in Hok.
  apply andb_true_iff in Hok as [Hok Hdr]. apply andb_true_iff in Hok as [Hs He].
  repeat split; try done.
  destruct (render_wire c w) as [dr|]; [by exists dr | done].
Qed.

Lemma catalog_wires_well_formed_witness :
  valid_source Recipes.mux_74153 (w_s (W "SW_5" (P 0 3) "WIRE_GREEN")) = true /\
  valid_end Recipes.mux_74153 (w_e (W "SW_5" (P 0 3) "WIRE_GREEN")) = true /\
  exists dr, render_wire Recipes.mux_74153 (W "SW_5" (P 0 3) "WIRE_GREEN") = Some dr /\
             forallb on_board (d dr) = true.
Proof.
  apply (catalog_wires_well_formed "mux_74153" Recipes.mux_74153
           (W "SW_5" (P 0 3) "WIRE_GREEN")).
  - reflexivity.
  - unfold Recipes.mux_74153, wires, powerWires. do 8 right. left.
Defined.

Lemma catalog_chips_checked :
  forallb (fun kc => forallb (fun '(i, ch) => chip_powered kc.2 i ch)
                             (imap pair (chips kc.2))) RECIPES = true.
Proof. vm_compute. reflexivity. Qed.

(** Every chip of every catalog circuit is powered: the circuit has a
    wire from VCC and a wire from GND to the supply pins of the part,
    which are 5 and 13 for the 7476, 16 and 8 for the other 16-pin
    parts and 14 and 7 for the 14-pin parts. *)
Theorem catalog_chips_powered (key : string) (c : circuit) (ci : nat) (ch : chip) :
  assoc key RECIPES = Some c ->
  chips c !! ci = Some ch ->
  has_wire c (Tok "VCC") (P (Z.of_nat ci) (supply_pins (chip_type ch)).1) = true /\
  has_wire c (Tok "GND") (P (Z.of_nat ci) (supply_pins (chip_type ch)).2) = true.
Proof.
  intros Hk Hch.
  pose proof catalog_chips_checked as Hall. rewrite forallb_forall in Hall.
  assert (Hc := Hall (key, c) (proj1 (list_elem_of_In _ _) (assoc_elem_of _ _ _ Hk))).
  rewrite forallb_forall in Hc.
  assert (Hin : (ci, ch) ∈ imap pair (chips c)).
  { apply list_elem_of_lookup. exists ci. by rewrite list_lookup_imap, Hch. }
  assert (Hok := Hc (ci, ch) (proj1 (list_elem_of_In _ _) Hin)).
  change ((key, c).2) with c in Hok. unfold chip_powered in Hok.
  by apply andb_true_iff in Hok.
Qed.

Lemma catalog_chips_powered_witness :
  has_wire Recipes.jk_ff_7476 (Tok "VCC") (P (Z.of_nat 0) (supply_pins "7476").1) = true /\
  has_wire Recipes.jk_ff_7476 (Tok "GND") (P (Z.of_nat 0) (supply_pins "7476").2) = true.
Proof.
  apply (catalog_chips_powered "jk_ff_7476" Recipes.jk_ff_7476 0%nat (Chip "u1" "7476" 25));
    reflexivity.
Defined.

(** ** Pins, legs and the middle of a wire *)

Open Scope Q_scope.

Lemma inject_Z_pred (p : Z) : inject_Z (p - 1) == inject_Z p - 1.
Proof. unfold Qeq. simpl. lia. Qed.

Lemma inject_Z_sub (a b : Z) : inject_Z (a - b) == inject_Z a - inject_Z b.
Proof. unfold Qeq. simpl. lia. Qed.

(** A wire to pin [p] of an existing chip ends, horizontally, inside a
    leg that is drawn for that chip: the chip is drawn with [N] legs per
    row, as many as the resolver counts pins per row, and the end of
    the wire lies one unit inside the leg of column [p - 1] for a pin
    of the lower row and of column [2N - p] for a pin of the upper
    row.  The chip stands at an integer grid position of magnitude at
    most 2^40. *)
Theorem pin_on_leg (chips : list chip) (c p : Z) (ch : chip) :
  chip_at chips c = Some ch ->
  grid_position ch ->
  let N := pins_per_row (chip_type ch) in
  (1 <= p <= 2 * N)%Z ->
  Z.of_nat (length (legs (draw_chip ch))) = N /\
  exists top bottom,
    legs (draw_chip ch) !! leg_column N p = Some (top, bottom) /\
    let leg := if (p <=? N)%Z then bottom else top in
    x (pin_coord chips c p) == rx leg + 1 /\
    rx leg < x (pin_coord chips c p) < rx leg + rw leg.
Proof.
  intros Hch _ N Hp.
  assert (HN : (if is_16pin (chip_type ch) then 8%nat else 7%nat) = Z.to_nat N /\
               (N = 7 \/ N = 8)%Z).
  { unfold N. rewrite <- pins_per_row_code. destruct (is_16pin _); split; auto. }
  destruct HN as [Hw HN].
  assert (Hcol : (leg_column N p < Z.to_nat N)%nat).
  { unfold leg_column. destruct (Z.leb_spec p N); lia. }
  unfold draw_chip. cbn [legs]. rewrite Hw. split.
  { rewrite length_fmap, length_seq. lia. }
  rewrite list_lookup_fmap, lookup_seq_lt by done. simpl.
  eexists _, _. split; [reflexivity|].
  rewrite (pin_coord_eq _ _ _ _ Hch) by lia. cbv zeta. fold N.
  unfold leg_column.
  destruct (Z.leb_spec p N) as [Hle|Hgt]; cbn [x rx rw].
  - rewrite Z2Nat.id by lia. rewrite inject_Z_pred. unfold CELL. split; [|split]; lra.
  - rewrite Z2Nat.id by lia.
    replace (N * 2)%Z with (2 * N)%Z by lia.
    rewrite (inject_Z_sub (2 * N) p). unfold CELL. split; [|split]; lra.
Qed.

Lemma pin_on_leg_witness :
  Z.of_nat (length (legs (draw_chip (Chip "u1" "74153" 25)))) = pins_per_row "74153" /\
  exists top bottom,
    legs (draw_chip (Chip "u1" "74153" 25)) !! leg_column (pins_per_row "74153") 14
      = Some (top, bottom) /\
    let leg := if (14 <=? pins_per_row "74153")%Z then bottom else top in
    x (pin_coord (chips Recipes.mux_74153) 0 14) == rx leg + 1 /\
    rx leg < x (pin_coord (chips Recipes.mux_74153) 0 14) < rx leg + rw leg.
Proof.
  apply (pin_on_leg (chips Recipes.mux_74153) 0 14 (Chip "u1" "74153" 25)).
  - reflexivity.
  - exists 25%Z. split; [reflexivity | vm_compute; discriminate].
  - vm_compute. split; discriminate.
Defined.

(** Two different pins of one chip, both within its package, never
    resolve to the same point, for a chip at an integer grid position
    of magnitude at most 2^40. *)
Theorem pins_do_not_collide (chips : list chip) (c p q : Z) (ch : chip) :
  chip_at chips c = Some ch ->
  grid_position ch ->
  (1 <= p <= maxPin ch)%Z -> (1 <= q <= maxPin ch)%Z ->
  x (pin_coord chips c p) == x (pin_coord chips c q) ->
  y (pin_coord chips c p) == y (pin_coord chips c q) ->
  p = q.
Proof.
  unfold maxPin. intros Hch _ Hp Hq.
  rewrite !(pin_coord_eq _ _ _ _ Hch) by lia. cbv zeta.
  set (N := pins_per_row (chip_type ch)) in *.
  destruct (Z.leb_spec p N), (Z.leb_spec q N); cbn [x y]; unfold CELL; intros Hx Hy.
  - apply inject_Z_injective. lra.
  - exfalso. revert Hy. unfold OFF_Y. lra.
  - exfalso. revert Hy. unfold OFF_Y. lra.
  - apply inject_Z_injective. lra.
Qed.

Lemma pins_do_not_collide_witness :
  x (pin_coord (chips Recipes.not_using_nand) 0 3)
    == x (pin_coord (chips Recipes.not_using_nand) 0 3) /\
  3%Z = 3%Z.
Proof.
  split; [reflexivity|].
  apply (pins_do_not_collide (chips Recipes.not_using_nand) 0 3 3 (Chip "u1" "7400" 25)).
  - reflexivity.
  - exists 25%Z. split; [reflexivity | vm_compute; discriminate].
  - vm_compute. split; discriminate.
  - vm_compute. split; discriminate.
  - reflexivity.
  - reflexivity.
Defined.

Lemma Qtrunc_bounds (t : Q) :
  -1 < t - inject_Z (Qtrunc t) < 1 /\ (0 <= t -> 0 <= t - inject_Z (Qtrunc t)).
Proof.
  destruct t as [n dn]. unfold Qtrunc. cbn [Qnum Qden].
  pose proof (Z.quot_rem' n (Z.pos dn)) as Hqr.
  pose proof (Z.rem_bound_abs n (Z.pos dn) ltac:(lia)) as Habs.
  assert (Hsign : (0 <= n -> 0 <= Z.rem n (Z.pos dn))%Z)
    by (intros Hn; apply Z.rem_nonneg; lia).
  generalize dependent (Z.quot n (Z.pos dn)). generalize dependent (Z.rem n (Z.pos dn)).
  intros r Habs Hsign qt Hqr.
  unfold Qlt, Qle, Qminus, Qplus, Qopp, inject_Z. cbn [Qnum Qden].
  repeat split; try intros Hn; nia.
Qed.

(** The horizontal segment of a drawn wire runs less than five units
    from the mean height of its two ends, and not above it when the
    first end has a non-negative [x], for ends whose coordinates are
    quarters of integers of magnitude at most 2^42. *)
Theorem Wire_middle_near_mean (a b : coord) (color : string) (dr : drawing) :
  exact_point a -> exact_point b ->
  Wire (Some a) (Some b) color = Some dr ->
  exists m1 m2,
    d dr !! 1%nat = Some m1 /\ d dr !! 2%nat = Some m2 /\
    y m2 = y m1 /\
    -5 < y m1 - (y a + y b) / 2 < 5 /\
    (0 <= x a -> (y a + y b) / 2 <= y m1).
Proof.
  intros _ _. unfold Wire. destruct (is_zero (x a) || is_zero (x b)); [done|].
  intros [= <-]. cbn [d]. eexists _, _. split; [reflexivity|]. split; [reflexivity|].
  cbn [y]. split; [done|].
  destruct (Qtrunc_bounds (x a / 5)) as [[Hlo Hhi] Hpos].
  unfold Qrem. generalize dependent (inject_Z (Qtrunc (x a / 5))). intros z Hlo Hhi Hpos.
  assert (Hdiv : x a / 5 == x a * Qmake 1 5) by reflexivity.
  rewrite Hdiv in Hlo, Hhi, Hpos.
  split; [split; lra|].
  intros Hx. assert (H : 0 <= x a * Qmake 1 5) by lra. specialize (Hpos H). lra.
Qed.

Lemma Wire_middle_near_mean_witness :
  exists m1 m2,
    d {| d := [Coord 443 270; Coord 443 (Qmake 3885 20); Coord 520 (Qmake 3885 20);
               Coord 520 112.5];
         stroke := "#3b82f6"; dots := [Coord 443 270; Coord 520 112.5] |} !! 1%nat = Some m1 /\
    d {| d := [Coord 443 270; Coord 443 (Qmake 3885 20); Coord 520 (Qmake 3885 20);
               Coord 520 112.5];
         stroke := "#3b82f6"; dots := [Coord 443 270; Coord 520 112.5] |} !! 2%nat = Some m2 /\
    y m2 = y m1 /\
    -5 < y m1 - (y (Coord 443 270) + y (Coord 520 112.5)) / 2 < 5 /\
    (0 <= x (Coord 443 270) -> (y (Coord 443 270) + y (Coord 520 112.5)) / 2 <= y m1).
Proof.
  apply (Wire_middle_near_mean (Coord 443 270) (Coord 520 112.5) "#3b82f6").
  - split; [exists 1772%Z | exists 1080%Z]; (split; [reflexivity | vm_compute; discriminate]).
  - split; [exists 2080%Z | exists 450%Z]; (split; [reflexivity | vm_compute; discriminate]).
  - reflexivity.
Defined.

Lemma sw_token_index (i : nat) :
  or_zero (parseInt (split "_" (sw_token i) !! 1%nat)) = Z.of_nat i.
Proof.
  destruct (pretty_nat_decimal i) as (Hall & Hne & Hval).
  change (sw_token i) with (String "S" (String "W" (String "_" (pretty i)))).
  change (split "_" (String "S" (String "W" (String "_" (pretty i)))))
    with (match
            match "" :: split "_" (pretty i) with
            | piece :: rest => String "W" piece :: rest
            | [] => [String "W" EmptyString]
            end
          with
          | piece :: rest => String "S" piece :: rest
          | [] => [String "S" EmptyString]
          end).
  rewrite (split_decimal _ Hall).
  change (["SW"%string; pretty i] !! 1%nat) with (Some (pretty i)).
  rewrite parseInt_decimal by done. by rewrite Hval.
Qed.

(** A wire from the token [SW_i] starts at the height of the top edge
    of switch [i], but [30 - 10 i] units left of the left edge of its
    slot: the wire ends are 30 units apart and the switches 20.  The
    start lies within the width of the slot only for the switches 3
    and 4.  The knob is in the upper half of the slot exactly when
    input [i] is truthy. *)
Theorem switch_wire_offset (inputs : jsarray) (i : nat) :
  let slot := (draw_switch inputs i).1 in
  let knob := (draw_switch inputs i).2 in
  let p := getCoords "SW" (Some (Tok (sw_token i))) None in
  y p == ry slot /\
  x p == rx slot - (30 - 10 * inject_Z (Z.of_nat i)) /\
  (rx slot <= x p <= rx slot + rw slot <-> (3 <= i <= 4)%nat) /\
  (ry knob == ry slot <-> ToBoolean (read inputs i) = true).
Proof.
  cbv zeta.
  assert (Hp : getCoords "SW" (Some (Tok (sw_token i))) None
               = Coord (OFF_X + (20 + inject_Z (Z.of_nat i) * 2) * CELL) (OFF_Y + 16 * CELL)).
  { unfold getCoords, getCoords_try. cbn [String.eqb Ascii.eqb Bool.eqb].
    by rewrite sw_token_index. }
  rewrite Hp. unfold draw_switch. cbn [fst snd x y rx ry rw]. unfold CELL, OFF_X, OFF_Y.
  assert (Hi : (3 <= i <= 4)%nat <-> 3 <= inject_Z (Z.of_nat i) <= 4).
  { change 3 with (inject_Z 3). change 4 with (inject_Z 4).
    rewrite <- !Zle_Qle. lia. }
  rewrite Hi. repeat split; try lra.
  - destruct (ToBoolean (read inputs i)); [done|]. intros H. exfalso. lra.
  - intros ->. lra.
Qed.

Lemma search_reaches_all_but_two_witness :
  exists q, search_key q = Some "half_adder"%string.
Proof.
  apply (proj2 (search_reaches_all_but_two "half_adder")).
  split; [by eexists | split; discriminate].
Defined.

Lemma blank_search_ignored_witness :
  handleSearch "  "%string = NoSearch.
Proof.
  apply (proj2 (blank_search_ignored "  " ltac:(repeat constructor; unfold is_ascii; simpl; lia))).
  repeat constructor.
Defined.
